(** * numutils.c: decimal formatting of 64-bit integers

    A shallow embedding of [psycopg_c/types/numutils.c] and the proofs of its
    bit scan, its digit count and its two formatting entry points.

    Conventions of the embedding.
    - A [uint64_t], [uint32_t] or [int] is a [Z]; the wrap-around of the
      unsigned types is written out with [u64] and [u32].
    - A [char] is an [ascii]; a [char *] is an address, a [Z]; the memory the
      pointer points into is a function from addresses to bytes together with
      the list of the addresses stored to, newest first.
    - What C leaves undefined (the bit scan of the word 0) is [None]. *)

From Stdlib Require Import ZArith Lia List Bool Ascii String.
Import ListNotations.

#[local] Open Scope list_scope.
#[local] Open Scope Z_scope.

(** ** Machine integers *)

Definition u64 (x : Z) : Z := x mod 2 ^ 64.
Definition u32 (x : Z) : Z := x mod 2 ^ 32.

(** The conversion of an integer to [char]. *)
Definition char_of_Z (x : Z) : ascii := ascii_of_N (Z.to_N (x mod 256)).
Definition Z_of_char (c : ascii) : Z := Z.of_N (N_of_ascii c).

(** ** Build configuration ([pg_config.h]) *)

Record pg_config : Type := {
  HAVE__BUILTIN_CLZ : bool;
  SIZEOF_LONG : Z;
  SIZEOF_LONG_LONG : Z
}.

(** ** The constant tables *)

Definition pg_leftmost_one_pos : list Z := [
  0; 0; 1; 1; 2; 2; 2; 2; 3; 3; 3; 3; 3; 3; 3; 3;
  4; 4; 4; 4; 4; 4; 4; 4; 4; 4; 4; 4; 4; 4; 4; 4;
  5; 5; 5; 5; 5; 5; 5; 5; 5; 5; 5; 5; 5; 5; 5; 5;
  5; 5; 5; 5; 5; 5; 5; 5; 5; 5; 5; 5; 5; 5; 5; 5;
  6; 6; 6; 6; 6; 6; 6; 6; 6; 6; 6; 6; 6; 6; 6; 6;
  6; 6; 6; 6; 6; 6; 6; 6; 6; 6; 6; 6; 6; 6; 6; 6;
  6; 6; 6; 6; 6; 6; 6; 6; 6; 6; 6; 6; 6; 6; 6; 6;
  6; 6; 6; 6; 6; 6; 6; 6; 6; 6; 6; 6; 6; 6; 6; 6;
  7; 7; 7; 7; 7; 7; 7; 7; 7; 7; 7; 7; 7; 7; 7; 7;
  7; 7; 7; 7; 7; 7; 7; 7; 7; 7; 7; 7; 7; 7; 7; 7;
  7; 7; 7; 7; 7; 7; 7; 7; 7; 7; 7; 7; 7; 7; 7; 7;
  7; 7; 7; 7; 7; 7; 7; 7; 7; 7; 7; 7; 7; 7; 7; 7;
  7; 7; 7; 7; 7; 7; 7; 7; 7; 7; 7; 7; 7; 7; 7; 7;
  7; 7; 7; 7; 7; 7; 7; 7; 7; 7; 7; 7; 7; 7; 7; 7;
  7; 7; 7; 7; 7; 7; 7; 7; 7; 7; 7; 7; 7; 7; 7; 7;
  7; 7; 7; 7; 7; 7; 7; 7; 7; 7; 7; 7; 7; 7; 7; 7
].

(** The 200 characters of the source's initialiser, in its lines. *)
Definition DIGIT_TABLE : list ascii := String.list_ascii_of_string (
  "000102030405060" ++
  "708091011121314" ++
  "151617181920212" ++
  "223242526272829" ++
  "303132333435363" ++
  "738394041424344" ++
  "454647484950515" ++
  "253545556575859" ++
  "606162636465666" ++
  "768697071727374" ++
  "757677787980818" ++
  "283848586878889" ++
  "909192939495969" ++
  "79899")%string.

(** Reading [tab[i]]; an index outside the table reads the default, which is
    no entry of either table's useful range (a NUL for [DIGIT_TABLE]). *)
Definition table_Z (tab : list Z) (i : Z) : Z := nth (Z.to_nat i) tab 0.
Definition table_char (tab : list ascii) (i : Z) : ascii :=
  nth (Z.to_nat i) tab zero.

(** ** pg_leftmost_one_pos64 *)

(** Modelled from the spec: the count-leading-zeros primitive of the
    compiler ([__builtin_clzl], [__builtin_clzll]), which the source calls and
    does not define.  On a 64-bit operand it is the number of 0 bits above
    the most significant 1 bit, counted here from bit 63 down. *)
Fixpoint clz_bits (n : nat) (x : Z) : Z :=
  match n with
  | O => 0
  | S k => if Z.testbit x (Z.of_nat k) then 0 else 1 + clz_bits k x
  end.

(** Modelled from the spec: [__builtin_clzl] where [long] has 64 bits; its
    result is undefined at 0, the precondition of [pg_leftmost_one_pos64]. *)
Definition builtin_clzl (x : Z) : option Z :=
  if x =? 0 then None else Some (clz_bits 64 x).

(** Modelled from the spec: [__builtin_clzll] where [long long] has 64 bits;
    undefined at 0 as well. *)
Definition builtin_clzll (x : Z) : option Z :=
  if x =? 0 then None else Some (clz_bits 64 x).

(** The loop of the portable path, [while ((word >> shift) == 0) shift -= 8;]
    followed by the table lookup.  A shift by a negative count is undefined;
    [fuel] bounds the number of loop tests. *)
Fixpoint leftmost_scan (fuel : nat) (word shift : Z) : option Z :=
  match fuel with
  | O => None
  | S fuel' =>
      if shift <? 0 then None
      else if Z.shiftr word shift =? 0 then leftmost_scan fuel' word (shift - 8)
      else Some (shift + table_Z pg_leftmost_one_pos
                                 (Z.land (Z.shiftr word shift) 255))
  end.

Definition pg_leftmost_one_pos64_clzl (word : Z) : option Z :=
  option_map (fun n => 63 - n) (builtin_clzl word).

Definition pg_leftmost_one_pos64_clzll (word : Z) : option Z :=
  option_map (fun n => 63 - n) (builtin_clzll word).

Definition pg_leftmost_one_pos64_table (word : Z) : option Z :=
  let shift := 64 - 8 in
  leftmost_scan 9 word shift.

Definition pg_leftmost_one_pos64 (cfg : pg_config) (word : Z) : option Z :=
  if HAVE__BUILTIN_CLZ cfg && (SIZEOF_LONG cfg =? 8) then
    pg_leftmost_one_pos64_clzl word
  else if HAVE__BUILTIN_CLZ cfg && (SIZEOF_LONG_LONG cfg =? 8) then
    pg_leftmost_one_pos64_clzll word
  else
    pg_leftmost_one_pos64_table word.

(** ** decimalLength64 *)

Definition PowersOfTen : list Z := [
  1; 10;
  100; 1000;
  10000; 100000;
  1000000; 10000000;
  100000000; 1000000000;
  10000000000; 100000000000;
  1000000000000; 10000000000000;
  100000000000000; 1000000000000000;
  10000000000000000; 100000000000000000;
  1000000000000000000; 10000000000000000000
].

(** The estimate [t] of [decimalLength64], an [int] computation. *)
Definition decimalLength64_t (cfg : pg_config) (v : Z) : option Z :=
  option_map (fun pos => Z.quot ((pos + 1) * 1233) 4096)
             (pg_leftmost_one_pos64 cfg v).

Definition decimalLength64 (cfg : pg_config) (v : Z) : option Z :=
  match decimalLength64_t cfg v with
  | None => None
  | Some t => Some (t + (if v >=? table_Z PowersOfTen t then 1 else 0))
  end.

(** ** The caller's buffer *)

(** The memory a [char *] points into: its bytes, and the addresses stored
    to so far, newest first. *)
Record mem : Type := {
  contents : Z -> ascii;
  writes : list Z
}.

(** [*p = c]. *)
Definition store (m : mem) (p : Z) (c : ascii) : mem :=
  {| contents := fun q => if q =? p then c else contents m q;
     writes := p :: writes m |}.

(** [memcpy(dst, DIGIT_TABLE + off, 2)]. *)
Definition memcpy2_DIGIT_TABLE (m : mem) (dst off : Z) : mem :=
  store (store m dst (table_char DIGIT_TABLE off))
        (dst + 1) (table_char DIGIT_TABLE (off + 1)).

(** The [n] bytes from address [a] on. *)
Definition read_bytes (m : mem) (a : Z) (n : Z) : list ascii :=
  map (fun k => contents m (a + Z.of_nat k)) (seq 0 (Z.to_nat n)).

(** ** pg_ulltoa_n *)

(** The loop [while (value >= 100000000)], on the variables it changes:
    [value], [i] and the memory.  [fuel] bounds the number of loop tests. *)
Fixpoint pg_ulltoa_n_loop (fuel : nat) (a olength : Z)
    (value i : Z) (m : mem) : option (Z * Z * mem) :=
  match fuel with
  | O => None
  | S fuel' =>
      if value >=? 100000000 then
        let q := value / 100000000 in
        let value2 := u32 (u64 (value - u64 (100000000 * q))) in
        let c := value2 mod 10000 in
        let d := value2 / 10000 in
        let c0 := u32 (Z.shiftl (c mod 100) 1) in
        let c1 := u32 (Z.shiftl (c / 100) 1) in
        let d0 := u32 (Z.shiftl (d mod 100) 1) in
        let d1 := u32 (Z.shiftl (d / 100) 1) in
        let pos := a + olength - i in
        let value := q in
        let m := memcpy2_DIGIT_TABLE m (pos - 2) c0 in
        let m := memcpy2_DIGIT_TABLE m (pos - 4) c1 in
        let m := memcpy2_DIGIT_TABLE m (pos - 6) d0 in
        let m := memcpy2_DIGIT_TABLE m (pos - 8) d1 in
        let i := i + 8 in
        pg_ulltoa_n_loop fuel' a olength value i m
      else Some (value, i, m)
  end.

(** [if (value2 >= 10000) { ... }] *)
Definition pg_ulltoa_n_4digits (a olength : Z)
    (value2 i : Z) (m : mem) : Z * Z * mem :=
  if value2 >=? 10000 then
    let c := u32 (value2 - u32 (10000 * (value2 / 10000))) in
    let c0 := u32 (Z.shiftl (c mod 100) 1) in
    let c1 := u32 (Z.shiftl (c / 100) 1) in
    let pos := a + olength - i in
    let value2 := value2 / 10000 in
    let m := memcpy2_DIGIT_TABLE m (pos - 2) c0 in
    let m := memcpy2_DIGIT_TABLE m (pos - 4) c1 in
    let i := i + 4 in
    (value2, i, m)
  else (value2, i, m).

(** [if (value2 >= 100) { ... }] *)
Definition pg_ulltoa_n_2digits (a olength : Z)
    (value2 i : Z) (m : mem) : Z * Z * mem :=
  if value2 >=? 100 then
    let c := u32 (Z.shiftl (value2 mod 100) 1) in
    let pos := a + olength - i in
    let value2 := value2 / 100 in
    let m := memcpy2_DIGIT_TABLE m (pos - 2) c in
    let i := i + 2 in
    (value2, i, m)
  else (value2, i, m).

(** [if (value2 >= 10) { ... } else *a = (char) ('0' + value2);] *)
Definition pg_ulltoa_n_last (a olength : Z)
    (value2 i : Z) (m : mem) : mem :=
  if value2 >=? 10 then
    let c := u32 (Z.shiftl value2 1) in
    let pos := a + olength - i in
    memcpy2_DIGIT_TABLE m (pos - 2) c
  else store m a (char_of_Z (u32 (Z_of_char "0" + value2))).

(** A 64-bit value has at most 20 digits: the loop is left at its third
    test at the latest. *)
Definition pg_ulltoa_n_fuel : nat := 3.

Definition pg_ulltoa_n (cfg : pg_config) (value : Z) (a : Z) (m : mem)
    : option (Z * mem) :=
  let i := 0 in
  if value =? 0 then
    Some (1, store m a "0"%char)
  else
    match decimalLength64 cfg value with
    | None => None
    | Some olength =>
        match pg_ulltoa_n_loop pg_ulltoa_n_fuel a olength value i m with
        | None => None
        | Some (value, i, m) =>
            let value2 := u32 value in
            let '(value2, i, m) := pg_ulltoa_n_4digits a olength value2 i m in
            let '(value2, i, m) := pg_ulltoa_n_2digits a olength value2 i m in
            let m := pg_ulltoa_n_last a olength value2 i m in
            Some (olength, m)
        end
    end.

(** ** pg_lltoa *)

Definition pg_lltoa (cfg : pg_config) (value : Z) (a : Z) (m : mem)
    : option (Z * mem) :=
  let uvalue := u64 value in
  let len := 0 in
  let '(uvalue, len, m) :=
    if value <? 0 then (u64 (0 - uvalue), len + 1, store m (a + len) "-"%char)
    else (uvalue, len, m) in
  match pg_ulltoa_n cfg uvalue (a + len) m with
  | None => None
  | Some (n, m) =>
      let len := len + n in
      Some (len, store m (a + len) zero)
  end.

(** ** Reference notions the claims are stated with *)

(** The decimal digit of weight [10^k]. *)
Definition digit (v k : Z) : Z := (v / 10 ^ k) mod 10.

Definition digit_char (d : Z) : ascii := char_of_Z (Z_of_char "0" + d).

Definition is_digit (c : ascii) : bool :=
  (Z_of_char "0" <=? Z_of_char c) && (Z_of_char c <=? Z_of_char "9").

(** Reading a digit sequence as a decimal integer, most significant first. *)
Definition parse_decimal (s : list ascii) : Z :=
  fold_left (fun acc c => 10 * acc + (Z_of_char c - Z_of_char "0")) s 0.

(** The [n]-digit decimal text of [v], most significant digit first. *)
Definition decimal_text (v n : Z) : list ascii :=
  map (fun k => digit_char (digit v (n - 1 - Z.of_nat k))) (seq 0 (Z.to_nat n)).

(** The number of sign characters of a signed [v]. *)
Definition sign_length (v : Z) : Z := if v <? 0 then 1 else 0.

(** The text of a signed [v] whose magnitude has [d] digits. *)
Definition signed_text (v d : Z) : list ascii :=
  (if v <? 0 then ["-"%char] else []) ++ decimal_text (Z.abs v) d.

(** [d] is the number of decimal digits of [v]. *)
Definition digits_of (v d : Z) : Prop := 10 ^ (d - 1) <= v < 10 ^ d.

(** The check made for each of the 64 bit positions: the estimate is an index of
    [PowersOfTen], and [10^(t-1) <= 2^pos] and [2^(pos+1) <= 10^(t+1)]. *)
Definition estimate_ok (pos : Z) : bool :=
  let t := Z.quot ((pos + 1) * 1233) 4096 in
  (0 <=? t) && (t <=? 19) &&
  (10 ^ (t - 1) <=? 2 ^ pos) && (2 ^ (pos + 1) <=? 10 ^ (t + 1)).

(** The digit count by repeated division by ten, the length of the decimal
    numeral of [v]; 0 has one digit.  [fuel] bounds the divisions. *)
Fixpoint decimal_digits_fuel (fuel : nat) (v : Z) : Z :=
  match fuel with
  | O => 1
  | S fuel' => if v <? 10 then 1 else 1 + decimal_digits_fuel fuel' (v / 10)
  end.

Definition decimal_digits (v : Z) : Z := decimal_digits_fuel 20 v.


(** The formats of the two built-in types the functions take. *)
Definition is_uint64 (v : Z) : Prop := 0 <= v < 2 ^ 64.
Definition is_int64 (v : Z) : Prop := - 2 ^ 63 <= v < 2 ^ 63.

(** The state of [pg_ulltoa_n] once the [n] low digits of [v] are in place:
    they sit at the end of the [olength] bytes from [a], each stored once,
    and nothing else has changed since [m0]. *)
Record low_digits_written (v a olength : Z) (m0 : mem) (n : Z) (m : mem)
    : Prop := {
  ldw_nonneg : 0 <= n;
  ldw_digits : forall k, 0 <= k < n ->
      contents m (a + olength - 1 - k) = digit_char (digit v k);
  ldw_frame : forall p, ~ (a + olength - n <= p < a + olength) ->
      contents m p = contents m0 p;
  ldw_writes : exists new, writes m = new ++ writes m0 /\
      Z.of_nat (List.length new) = n /\
      (forall p, In p new <-> a + olength - n <= p < a + olength)
}.

(** Some configurations, for evaluating the definitions. *)
Definition cfg_lp64 : pg_config :=
  {| HAVE__BUILTIN_CLZ := true; SIZEOF_LONG := 8; SIZEOF_LONG_LONG := 8 |}.
Definition cfg_llp64 : pg_config :=
  {| HAVE__BUILTIN_CLZ := true; SIZEOF_LONG := 4; SIZEOF_LONG_LONG := 8 |}.
Definition cfg_portable : pg_config :=
  {| HAVE__BUILTIN_CLZ := false; SIZEOF_LONG := 4; SIZEOF_LONG_LONG := 8 |}.

(** A buffer filled with ['x'], nothing stored yet. *)
Definition fresh_mem : mem := {| contents := fun _ => "x"%char; writes := [] |}.

Definition result_text (r : option (Z * mem)) (a : Z) : option (Z * String.string) :=
  match r with
  | None => None
  | Some (n, m) => Some (n, String.string_of_list_ascii (read_bytes m a n))
  end.

(** * Proofs *)

(** ** Checking a finite range by evaluation *)

Lemma forallb_Zrange (f : Z -> bool) (n : nat) :
  forallb f (map Z.of_nat (seq 0 n)) = true ->
  forall z, 0 <= z < Z.of_nat n -> f z = true.
Proof.
  intros Hall z Hz.
  rewrite forallb_forall in Hall.
  apply Hall.
  rewrite <- (Z2Nat.id z) by lia.
  apply in_map, in_seq. lia.
Qed.

(** ** The tables *)

Lemma pg_leftmost_one_pos_log2 (b : Z) :
  1 <= b <= 255 -> table_Z pg_leftmost_one_pos b = Z.log2 b.
Proof.
  intros Hb.
  pose proof (forallb_Zrange
    (fun z => (z =? 0) || (table_Z pg_leftmost_one_pos z =? Z.log2 z)) 256) as H.
  specialize (H ltac:(vm_compute; reflexivity) b ltac:(lia)).
  cbv beta in H.
  apply orb_true_iff in H as [H | H]; lia.
Qed.

Lemma DIGIT_TABLE_pair (n : Z) :
  0 <= n < 100 ->
  table_char DIGIT_TABLE (2 * n) = digit_char (n / 10) /\
  table_char DIGIT_TABLE (2 * n + 1) = digit_char (n mod 10).
Proof.
  intros Hn.
  pose proof (forallb_Zrange (fun z =>
      Ascii.eqb (table_char DIGIT_TABLE (2 * z)) (digit_char (z / 10)) &&
      Ascii.eqb (table_char DIGIT_TABLE (2 * z + 1)) (digit_char (z mod 10)))
    100) as H.
  specialize (H ltac:(vm_compute; reflexivity) n ltac:(lia)).
  cbv beta in H.
  apply andb_true_iff in H as [H1 H2].
  split; apply Ascii.eqb_eq; assumption.
Qed.

Lemma PowersOfTen_pow (t : Z) :
  0 <= t <= 19 -> table_Z PowersOfTen t = 10 ^ t.
Proof.
  intros Ht.
  pose proof (forallb_Zrange (fun z => table_Z PowersOfTen z =? 10 ^ z) 20) as H.
  specialize (H ltac:(vm_compute; reflexivity) t ltac:(lia)).
  cbv beta in H. lia.
Qed.

(** ** The bit scan *)

Lemma clz_bits_log2 (n : nat) (x : Z) :
  0 < x < 2 ^ Z.of_nat n -> clz_bits n x = Z.of_nat n - 1 - Z.log2 x.
Proof.
  induction n as [| k IH]; intros Hx.
  - simpl in Hx. lia.
  - assert (Hlt : Z.log2 x < Z.of_nat (S k)) by (apply Z.log2_lt_pow2; lia).
    cbn [clz_bits].
    destruct (Z.testbit x (Z.of_nat k)) eqn:Hbit.
    + assert (~ Z.log2 x < Z.of_nat k).
      { intros Hlow.
        rewrite (Z.bits_above_log2 x (Z.of_nat k)) in Hbit by lia.
        discriminate. }
      lia.
    + assert (Z.log2 x <> Z.of_nat k).
      { intros Heq. rewrite <- Heq, Z.bit_log2 in Hbit by lia. discriminate. }
      rewrite IH; [lia |].
      split; [lia |].
      apply Z.log2_lt_pow2; lia.
Qed.

Lemma pg_leftmost_one_pos64_clzl_log2 (word : Z) :
  0 < word < 2 ^ 64 -> pg_leftmost_one_pos64_clzl word = Some (Z.log2 word).
Proof.
  intros Hw.
  unfold pg_leftmost_one_pos64_clzl, builtin_clzl.
  destruct (Z.eqb_spec word 0) as [-> | _]; [lia |].
  cbn [option_map].
  rewrite (clz_bits_log2 64) by (exact Hw).
  f_equal. lia.
Qed.

Lemma pg_leftmost_one_pos64_clzll_log2 (word : Z) :
  0 < word < 2 ^ 64 -> pg_leftmost_one_pos64_clzll word = Some (Z.log2 word).
Proof.
  intros Hw.
  unfold pg_leftmost_one_pos64_clzll, builtin_clzll.
  destruct (Z.eqb_spec word 0) as [-> | _]; [lia |].
  cbn [option_map].
  rewrite (clz_bits_log2 64) by (exact Hw).
  f_equal. lia.
Qed.

(** One test of the portable loop: with [word] below [2^(shift+8)], a
    nonzero [word >> shift] is a byte whose leftmost bit is the word's. *)
Lemma leftmost_scan_hit (word shift : Z) :
  0 <= shift -> 0 < word < 2 ^ (shift + 8) ->
  Z.shiftr word shift <> 0 ->
  shift + table_Z pg_leftmost_one_pos (Z.land (Z.shiftr word shift) 255)
  = Z.log2 word.
Proof.
  intros Hs Hw Hnz.
  set (b := Z.shiftr word shift) in *.
  assert (Hb : 1 <= b <= 255).
  { assert (0 <= b) by (apply Z.shiftr_nonneg; lia).
    assert (b < 2 ^ 8).
    { unfold b. rewrite Z.shiftr_div_pow2 by lia.
      apply Z.div_lt_upper_bound; [lia |].
      rewrite <- Z.pow_add_r by lia. lia. }
    lia. }
  replace (Z.land b 255) with b.
  2:{ change 255 with (Z.ones 8). rewrite Z.land_ones by lia.
      symmetry. apply Z.mod_small. lia. }
  rewrite pg_leftmost_one_pos_log2 by exact Hb.
  unfold b. rewrite Z.log2_shiftr by lia.
  assert (shift <= Z.log2 word).
  { apply Z.log2_le_pow2; [lia |].
    destruct (Z.lt_ge_cases word (2 ^ shift)) as [Hlt | Hge]; [| exact Hge].
    exfalso. apply Hnz. unfold b.
    rewrite Z.shiftr_div_pow2 by lia. apply Z.div_small. lia. }
  lia.
Qed.

Lemma leftmost_scan_log2 (k : nat) (fuel : nat) (word : Z) :
  (k < fuel)%nat -> 0 < word < 2 ^ (8 * Z.of_nat k + 8) ->
  leftmost_scan fuel word (8 * Z.of_nat k) = Some (Z.log2 word).
Proof.
  revert fuel. induction k as [| k IH]; intros fuel Hfuel Hw;
    (destruct fuel as [| fuel]; [lia |]); cbn [leftmost_scan].
  - destruct (Z.ltb_spec (8 * Z.of_nat 0) 0) as [Hneg | _]; [lia |].
    destruct (Z.eqb_spec (Z.shiftr word (8 * Z.of_nat 0)) 0) as [Hz | Hnz].
    + simpl in Hz. rewrite Z.shiftr_0_r in Hz. lia.
    + f_equal. apply leftmost_scan_hit; [lia | exact Hw | exact Hnz].
  - destruct (Z.ltb_spec (8 * Z.of_nat (S k)) 0) as [Hneg | _]; [lia |].
    destruct (Z.eqb_spec (Z.shiftr word (8 * Z.of_nat (S k))) 0) as [Hz | Hnz].
    + replace (8 * Z.of_nat (S k) - 8) with (8 * Z.of_nat k) by lia.
      apply IH; [lia |].
      split; [lia |].
      rewrite Z.shiftr_div_pow2 in Hz by lia.
      replace (8 * Z.of_nat k + 8) with (8 * Z.of_nat (S k)) by lia.
      apply Z.div_small_iff in Hz; lia.
    + f_equal. apply leftmost_scan_hit; [lia | exact Hw | exact Hnz].
Qed.

Lemma pg_leftmost_one_pos64_table_log2 (word : Z) :
  0 < word < 2 ^ 64 -> pg_leftmost_one_pos64_table word = Some (Z.log2 word).
Proof.
  intros Hw. unfold pg_leftmost_one_pos64_table.
  change (64 - 8) with (8 * Z.of_nat 7).
  apply leftmost_scan_log2; [lia | exact Hw].
Qed.

Lemma pg_leftmost_one_pos64_log2 (cfg : pg_config) (word : Z) :
  0 < word < 2 ^ 64 -> pg_leftmost_one_pos64 cfg word = Some (Z.log2 word).
Proof.
  intros Hw. unfold pg_leftmost_one_pos64.
  destruct (HAVE__BUILTIN_CLZ cfg && (SIZEOF_LONG cfg =? 8)).
  - apply pg_leftmost_one_pos64_clzl_log2, Hw.
  - destruct (HAVE__BUILTIN_CLZ cfg && (SIZEOF_LONG_LONG cfg =? 8)).
    + apply pg_leftmost_one_pos64_clzll_log2, Hw.
    + apply pg_leftmost_one_pos64_table_log2, Hw.
Qed.

Lemma pg_leftmost_one_pos64_zero (cfg : pg_config) :
  pg_leftmost_one_pos64 cfg 0 = None.
Proof.
  unfold pg_leftmost_one_pos64.
  destruct (HAVE__BUILTIN_CLZ cfg && (SIZEOF_LONG cfg =? 8));
    [reflexivity |].
  destruct (HAVE__BUILTIN_CLZ cfg && (SIZEOF_LONG_LONG cfg =? 8));
    reflexivity.
Qed.

Lemma log2_range64 (word : Z) :
  0 < word < 2 ^ 64 -> 0 <= Z.log2 word <= 63.
Proof.
  intros Hw. split; [apply Z.log2_nonneg |].
  assert (Z.log2 word < 64) by (apply Z.log2_lt_pow2; lia). lia.
Qed.

(** ** Powers of ten and digit counts *)

Lemma pow10_pos (k : Z) : 0 <= k -> 0 < 10 ^ k.
Proof. intros Hk. apply Z.pow_pos_nonneg; lia. Qed.

Lemma pow10_le (j k : Z) : j <= k -> 10 ^ j <= 10 ^ k.
Proof. intros Hjk. apply Z.pow_le_mono_r; lia. Qed.

Lemma pow10_succ (k : Z) : 0 <= k -> 10 ^ (k + 1) = 10 * 10 ^ k.
Proof. intros Hk. rewrite Z.pow_add_r by lia. lia. Qed.

Lemma digits_of_positive (v d : Z) : 1 <= v -> digits_of v d -> 1 <= d.
Proof.
  intros Hv [_ Hhi].
  destruct (Z.lt_ge_cases d 1) as [Hd | Hd]; [| exact Hd].
  exfalso.
  assert (10 ^ d <= 10 ^ 0) by (apply pow10_le; lia).
  change (10 ^ 0) with 1 in *. lia.
Qed.

Lemma digits_of_le (v1 v2 d1 d2 : Z) :
  v1 <= v2 -> digits_of v1 d1 -> digits_of v2 d2 -> d1 <= d2.
Proof.
  intros Hle [Hlo1 _] [_ Hhi2].
  destruct (Z.le_gt_cases d1 d2) as [Hd | Hd]; [exact Hd |].
  exfalso.
  assert (10 ^ d2 <= 10 ^ (d1 - 1)) by (apply pow10_le; lia).
  lia.
Qed.

Lemma digits_of_unique (v d1 d2 : Z) :
  digits_of v d1 -> digits_of v d2 -> d1 = d2.
Proof.
  intros H1 H2.
  assert (d1 <= d2) by (apply (digits_of_le v v); [lia | exact H1 | exact H2]).
  assert (d2 <= d1) by (apply (digits_of_le v v); [lia | exact H2 | exact H1]).
  lia.
Qed.

(** ** The estimate of decimalLength64 *)

Lemma estimate_bounds (pos : Z) :
  0 <= pos <= 63 ->
  let t := Z.quot ((pos + 1) * 1233) 4096 in
  0 <= t <= 19 /\ 10 ^ (t - 1) <= 2 ^ pos /\ 2 ^ (pos + 1) <= 10 ^ (t + 1).
Proof.
  intros Hp t.
  pose proof (forallb_Zrange estimate_ok 64) as H.
  specialize (H ltac:(vm_compute; reflexivity) pos ltac:(lia)).
  unfold estimate_ok in H. fold t in H.
  repeat (apply andb_true_iff in H as [H ?]).
  lia.
Qed.

Lemma decimalLength64_t_bounds (cfg : pg_config) (v : Z) :
  1 <= v < 2 ^ 64 ->
  exists t, decimalLength64_t cfg v = Some t /\
            0 <= t <= 19 /\ 10 ^ (t - 1) <= v < 10 ^ (t + 1).
Proof.
  intros Hv.
  unfold decimalLength64_t.
  rewrite pg_leftmost_one_pos64_log2 by lia.
  cbn [option_map].
  pose proof (log2_range64 v ltac:(lia)) as Hpos.
  pose proof (estimate_bounds (Z.log2 v) Hpos) as (Ht & Hlo & Hhi).
  pose proof (Z.log2_spec v ltac:(lia)) as [Hv1 Hv2].
  replace (Z.succ (Z.log2 v)) with (Z.log2 v + 1) in Hv2 by lia.
  eexists. split; [reflexivity |].
  split; [exact Ht | lia].
Qed.

Lemma decimalLength64_digits (cfg : pg_config) (v : Z) :
  1 <= v < 2 ^ 64 ->
  exists d, decimalLength64 cfg v = Some d /\ digits_of v d /\ 1 <= d <= 20.
Proof.
  intros Hv.
  destruct (decimalLength64_t_bounds cfg v Hv) as (t & Ht & Hrange & Hlo & Hhi).
  unfold decimalLength64. rewrite Ht.
  rewrite PowersOfTen_pow by exact Hrange.
  eexists. split; [reflexivity |].
  unfold digits_of.
  destruct (Z.geb_spec v (10 ^ t)) as [Hge | Hlt].
  - replace (t + 1 - 1) with t by lia. lia.
  - rewrite Z.add_0_r.
    assert (t <> 0) by (intros ->; change (10 ^ 0) with 1 in Hlt; lia).
    lia.
Qed.

Lemma decimalLength64_zero (cfg : pg_config) : decimalLength64 cfg 0 = None.
Proof.
  unfold decimalLength64, decimalLength64_t.
  rewrite pg_leftmost_one_pos64_zero. reflexivity.
Qed.

(** ** Machine arithmetic of the formatting code *)

Lemma u32_small (x : Z) : 0 <= x < 2 ^ 32 -> u32 x = x.
Proof. intros Hx. apply Z.mod_small, Hx. Qed.

Lemma u64_small (x : Z) : 0 <= x < 2 ^ 64 -> u64 x = x.
Proof. intros Hx. apply Z.mod_small, Hx. Qed.

(** [(x) << 1] of a two-digit group is its offset in [DIGIT_TABLE]. *)
Lemma pair_offset (x : Z) : 0 <= x < 100 -> u32 (Z.shiftl x 1) = 2 * x.
Proof.
  intros Hx. rewrite Z.shiftl_mul_pow2 by lia.
  change (2 ^ 1) with 2. rewrite u32_small; lia.
Qed.

(** [(uint32) (value - 100000000 * q)] is the remainder. *)
Lemma loop_value2 (value : Z) :
  0 <= value < 2 ^ 64 ->
  u32 (u64 (value - u64 (100000000 * (value / 100000000))))
  = value mod 100000000.
Proof.
  intros Hv.
  pose proof (Z.div_mod value 100000000 ltac:(lia)) as Hdm.
  pose proof (Z.mod_pos_bound value 100000000 ltac:(lia)) as Hm.
  assert (0 <= value / 100000000) by (apply Z.div_pos; lia).
  rewrite (u64_small (100000000 * _)) by lia.
  replace (value - 100000000 * (value / 100000000))
    with (value mod 100000000) by lia.
  rewrite u64_small by lia. apply u32_small. lia.
Qed.

(** [value2 - 10000 * (value2 / 10000)] is the remainder. *)
Lemma tail_c (value2 : Z) :
  0 <= value2 < 2 ^ 32 ->
  u32 (value2 - u32 (10000 * (value2 / 10000))) = value2 mod 10000.
Proof.
  intros Hv.
  pose proof (Z.div_mod value2 10000 ltac:(lia)) as Hdm.
  pose proof (Z.mod_pos_bound value2 10000 ltac:(lia)) as Hm.
  assert (0 <= value2 / 10000) by (apply Z.div_pos; lia).
  rewrite (u32_small (10000 * _)) by lia.
  replace (value2 - 10000 * (value2 / 10000)) with (value2 mod 10000) by lia.
  apply u32_small. lia.
Qed.

(** ** Characters *)

Lemma Z_of_char_of_Z (x : Z) : 0 <= x < 256 -> Z_of_char (char_of_Z x) = x.
Proof.
  intros Hx. unfold Z_of_char, char_of_Z.
  rewrite Z.mod_small by lia.
  rewrite N_ascii_embedding; [apply Z2N.id; lia |].
  change 256%N with (Z.to_N 256). apply Z2N.inj_lt; lia.
Qed.

Lemma Z_of_digit_char (d : Z) :
  0 <= d <= 9 -> Z_of_char (digit_char d) = 48 + d.
Proof.
  intros Hd. unfold digit_char.
  change (Z_of_char "0") with 48. apply Z_of_char_of_Z. lia.
Qed.

Lemma is_digit_digit_char (d : Z) :
  0 <= d <= 9 -> is_digit (digit_char d) = true.
Proof.
  intros Hd. unfold is_digit. rewrite Z_of_digit_char by exact Hd.
  change (Z_of_char "0") with 48. change (Z_of_char "9") with 57.
  apply andb_true_iff. lia.
Qed.

(** ** Decimal digits *)

Lemma digit_range (v k : Z) : 0 <= digit v k <= 9.
Proof.
  unfold digit. pose proof (Z.mod_pos_bound (v / 10 ^ k) 10 ltac:(lia)). lia.
Qed.

Lemma div_pow10_add (v i j : Z) :
  0 <= i -> 0 <= j -> v / 10 ^ i / 10 ^ j = v / 10 ^ (i + j).
Proof.
  intros Hi Hj.
  pose proof (pow10_pos i Hi). pose proof (pow10_pos j Hj).
  rewrite Z.pow_add_r by lia.
  rewrite Z.div_div by lia. reflexivity.
Qed.

(** The two digits of a two-digit group. *)
Lemma digit_pair (v n x : Z) :
  0 <= n -> x = (v / 10 ^ n) mod 100 ->
  0 <= x < 100 /\ x mod 10 = digit v n /\ x / 10 = digit v (n + 1).
Proof.
  intros Hn Hx. unfold digit.
  rewrite <- (div_pow10_add v n 1) by lia.
  change (10 ^ 1) with 10.
  set (y := v / 10 ^ n) in *.
  subst x.
  pose proof (Z.mod_pos_bound y 100 ltac:(lia)).
  repeat split; try lia.
  - Z.to_euclidean_division_equations; lia.
  - Z.to_euclidean_division_equations; lia.
Qed.

(** A quotient by a power of ten brackets the dividend. *)
Lemma div_pow10_bracket (v i : Z) :
  0 <= i ->
  10 ^ i * (v / 10 ^ i) <= v < 10 ^ i * (v / 10 ^ i + 1).
Proof.
  intros Hi. pose proof (pow10_pos i Hi) as Hp.
  pose proof (Z.div_mod v (10 ^ i) ltac:(lia)).
  pose proof (Z.mod_pos_bound v (10 ^ i) Hp).
  lia.
Qed.

(** ** Stores *)

Lemma contents_store_eq (m : mem) (p : Z) (c : ascii) :
  contents (store m p c) p = c.
Proof. cbn [store contents]. rewrite Z.eqb_refl. reflexivity. Qed.

Lemma contents_store_neq (m : mem) (p q : Z) (c : ascii) :
  q <> p -> contents (store m p c) q = contents m q.
Proof.
  intros Hq. cbn [store contents].
  destruct (Z.eqb_spec q p); [contradiction | reflexivity].
Qed.

Lemma writes_store (m : mem) (p : Z) (c : ascii) :
  writes (store m p c) = p :: writes m.
Proof. reflexivity. Qed.

(** ** The invariant of pg_ulltoa_n *)

Section LowDigits.

Variables v a olength : Z.
Variable m0 : mem.

Lemma ldw_start : low_digits_written v a olength m0 0 m0.
Proof.
  split.
  - lia.
  - intros k Hk. lia.
  - reflexivity.
  - exists []. split; [reflexivity |]. split; [reflexivity |].
    intros p. cbn [In]. lia.
Qed.

(** Storing the digit of weight [10^n] just before the [n] digits in place. *)
Lemma ldw_store (n : Z) (m : mem) (p : Z) (c : ascii) :
  low_digits_written v a olength m0 n m ->
  p = a + olength - n - 1 ->
  c = digit_char (digit v n) ->
  low_digits_written v a olength m0 (n + 1) (store m p c).
Proof.
  intros [Hn Hdig Hframe (new & Hw & Hlen & Hall)] Hp Hc.
  split.
  - lia.
  - intros k Hk.
    destruct (Z.eq_dec k n) as [-> | Hkn].
    + replace (a + olength - 1 - n) with p by lia.
      rewrite contents_store_eq. exact Hc.
    + rewrite contents_store_neq by lia. apply Hdig. lia.
  - intros q Hq. rewrite contents_store_neq by lia. apply Hframe. lia.
  - exists (p :: new). rewrite writes_store, Hw.
    split; [reflexivity |]. split.
    + cbn [List.length]. lia.
    + intros q. cbn [In]. rewrite Hall. lia.
Qed.

(** [memcpy] of the table's pair for the two-digit group of weight [10^n]. *)
Lemma ldw_memcpy2 (n x : Z) (m : mem) (dst off : Z) :
  low_digits_written v a olength m0 n m ->
  x = (v / 10 ^ n) mod 100 ->
  dst = a + olength - n - 2 ->
  off = 2 * x ->
  low_digits_written v a olength m0 (n + 2) (memcpy2_DIGIT_TABLE m dst off).
Proof.
  intros Hldw Hx Hdst Hoff.
  pose proof (ldw_nonneg _ _ _ _ _ _ Hldw) as Hn.
  destruct (digit_pair v n x Hn Hx) as (Hrange & Hlo & Hhi).
  destruct (DIGIT_TABLE_pair x Hrange) as [Htab0 Htab1].
  unfold memcpy2_DIGIT_TABLE. subst off.
  replace (n + 2) with (n + 1 + 1) by lia.
  (* the high digit is stored first, at [dst]; the low one at [dst + 1] *)
  destruct Hldw as [_ Hdig Hframe (new & Hw & Hlen & Hall)].
  split.
  - lia.
  - intros k Hk.
    destruct (Z.eq_dec k n) as [-> | Hkn];
      [| destruct (Z.eq_dec k (n + 1)) as [-> | Hkn1]].
    + replace (a + olength - 1 - n) with (dst + 1) by lia.
      rewrite contents_store_eq, Htab1, Hlo. reflexivity.
    + replace (a + olength - 1 - (n + 1)) with dst by lia.
      rewrite contents_store_neq by lia.
      rewrite contents_store_eq, Htab0, Hhi. reflexivity.
    + rewrite !contents_store_neq by lia. apply Hdig. lia.
  - intros q Hq. rewrite !contents_store_neq by lia. apply Hframe. lia.
  - exists (dst + 1 :: dst :: new). rewrite !writes_store, Hw.
    split; [reflexivity |]. split.
    + cbn [List.length]. lia.
    + intros q. cbn [In]. rewrite Hall. lia.
Qed.

(** The same, for the group [j] digits above the ones still held in [value]. *)
Lemma ldw_group (i j value x : Z) (m : mem) (dst off : Z) :
  0 <= i -> 0 <= j ->
  value = v / 10 ^ i ->
  low_digits_written v a olength m0 (i + j) m ->
  x = (value / 10 ^ j) mod 100 ->
  dst = a + olength - (i + j) - 2 ->
  off = 2 * x ->
  low_digits_written v a olength m0 (i + j + 2) (memcpy2_DIGIT_TABLE m dst off).
Proof.
  intros Hi Hj Hvalue Hldw Hx Hdst Hoff.
  apply (ldw_memcpy2 (i + j) x); try assumption.
  rewrite <- div_pow10_add by lia. rewrite <- Hvalue. exact Hx.
Qed.

End LowDigits.

(** ** The phases of pg_ulltoa_n *)

(** Equations between quotients and remainders by constants. *)
Ltac div_lia := Z.to_euclidean_division_equations; lia.

(** The offset a group is looked up at is twice the group. *)
Ltac group_offset :=
  rewrite pair_offset;
  [ f_equal;
    change (10 ^ 0) with 1; change (10 ^ 2) with 100;
    change (10 ^ 4) with 10000; change (10 ^ 6) with 1000000; div_lia
  | div_lia ].

(** An equation between triples, without reducing its sides. *)
Ltac triple_eq H :=
  let H1 := fresh in
  let H2 := fresh in
  let H3 := fresh in
  apply pair_equal_spec in H as [H1 H3];
  apply pair_equal_spec in H1 as [H1 H2];
  rewrite <- ?H1, <- ?H2, <- ?H3; clear H1 H2 H3.

Section Phases.

Variables v a olength : Z.
Variable m0 : mem.

Lemma pg_ulltoa_n_loop_spec (fuel : nat) :
  forall value i m,
    low_digits_written v a olength m0 i m ->
    value = v / 10 ^ i ->
    1 <= value < 2 ^ 64 ->
    value < 10 ^ (8 * Z.of_nat fuel) ->
    exists value' i' m',
      pg_ulltoa_n_loop fuel a olength value i m = Some (value', i', m') /\
      low_digits_written v a olength m0 i' m' /\
      value' = v / 10 ^ i' /\
      1 <= value' < 100000000.
Proof.
  induction fuel as [| fuel IH]; intros value i m Hldw Hvalue Hrange Hfuel.
  - change (10 ^ (8 * Z.of_nat 0)) with 1 in Hfuel. lia.
  - pose proof (ldw_nonneg _ _ _ _ _ _ Hldw) as Hi.
    cbn [pg_ulltoa_n_loop].
    destruct (Z.geb_spec value 100000000) as [Hge | Hlt].
    2:{ exists value, i, m.
        split; [reflexivity | split; [exact Hldw | split; [exact Hvalue | lia]]]. }
    cbv zeta. rewrite loop_value2 by lia.
    apply IH.
    + replace (i + 8) with (i + 6 + 2) by lia.
      eapply (ldw_group v a olength m0 i 6 value _ _ _ _ Hi ltac:(lia) Hvalue);
        [| reflexivity | lia | group_offset].
      replace (i + 6) with (i + 4 + 2) by lia.
      eapply (ldw_group v a olength m0 i 4 value _ _ _ _ Hi ltac:(lia) Hvalue);
        [| reflexivity | lia | group_offset].
      replace (i + 4) with (i + 2 + 2) by lia.
      eapply (ldw_group v a olength m0 i 2 value _ _ _ _ Hi ltac:(lia) Hvalue);
        [| reflexivity | lia | group_offset].
      replace (i + 2) with (i + 0 + 2) by lia.
      eapply (ldw_group v a olength m0 i 0 value _ _ _ _ Hi ltac:(lia) Hvalue);
        [| reflexivity | lia | group_offset].
      rewrite Z.add_0_r. exact Hldw.
    + rewrite <- div_pow10_add by lia. rewrite <- Hvalue. reflexivity.
    + split; [div_lia |].
      apply Z.div_lt_upper_bound; lia.
    + apply Z.div_lt_upper_bound; [lia |].
      replace (8 * Z.of_nat (S fuel)) with (8 + 8 * Z.of_nat fuel) in Hfuel
        by lia.
      rewrite Z.pow_add_r in Hfuel by lia.
      exact Hfuel.
Qed.

Lemma pg_ulltoa_n_4digits_spec (value2 i : Z) (m : mem) :
  low_digits_written v a olength m0 i m ->
  value2 = v / 10 ^ i ->
  1 <= value2 < 100000000 ->
  forall value2' i' m',
    pg_ulltoa_n_4digits a olength value2 i m = (value2', i', m') ->
    low_digits_written v a olength m0 i' m' /\
    value2' = v / 10 ^ i' /\
    1 <= value2' < 10000.
Proof.
  intros Hldw Hvalue Hrange value2' i' m'.
  pose proof (ldw_nonneg _ _ _ _ _ _ Hldw) as Hi.
  unfold pg_ulltoa_n_4digits.
  destruct (Z.geb_spec value2 10000) as [Hge | Hlt]; cbv zeta;
    intros Heq; triple_eq Heq.
  2:{ split; [exact Hldw | split; [exact Hvalue | lia]]. }
  rewrite tail_c by lia.
  split; [| split].
  - replace (i + 4) with (i + 2 + 2) by lia.
    eapply (ldw_group v a olength m0 i 2 value2 _ _ _ _ Hi ltac:(lia) Hvalue);
      [| reflexivity | lia | group_offset].
    replace (i + 2) with (i + 0 + 2) by lia.
    eapply (ldw_group v a olength m0 i 0 value2 _ _ _ _ Hi ltac:(lia) Hvalue);
      [| reflexivity | lia | group_offset].
    rewrite Z.add_0_r. exact Hldw.
  - rewrite <- div_pow10_add by lia. rewrite <- Hvalue. reflexivity.
  - div_lia.
Qed.

Lemma pg_ulltoa_n_2digits_spec (value2 i : Z) (m : mem) :
  low_digits_written v a olength m0 i m ->
  value2 = v / 10 ^ i ->
  1 <= value2 < 10000 ->
  forall value2' i' m',
    pg_ulltoa_n_2digits a olength value2 i m = (value2', i', m') ->
    low_digits_written v a olength m0 i' m' /\
    value2' = v / 10 ^ i' /\
    1 <= value2' < 100.
Proof.
  intros Hldw Hvalue Hrange value2' i' m'.
  pose proof (ldw_nonneg _ _ _ _ _ _ Hldw) as Hi.
  unfold pg_ulltoa_n_2digits.
  destruct (Z.geb_spec value2 100) as [Hge | Hlt]; cbv zeta;
    intros Heq; triple_eq Heq.
  2:{ split; [exact Hldw | split; [exact Hvalue | lia]]. }
  split; [| split].
  - replace (i + 2) with (i + 0 + 2) by lia.
    eapply (ldw_group v a olength m0 i 0 value2 _ _ _ _ Hi ltac:(lia) Hvalue);
      [| reflexivity | lia | group_offset].
    rewrite Z.add_0_r. exact Hldw.
  - rewrite <- div_pow10_add by lia. rewrite <- Hvalue. reflexivity.
  - div_lia.
Qed.

(** What is left in [value2] fixes the digit count. *)
Lemma digits_left (value2 i k : Z) :
  0 <= i -> 0 <= k ->
  value2 = v / 10 ^ i ->
  10 ^ k <= value2 < 10 ^ (k + 1) ->
  digits_of v (i + k + 1).
Proof.
  intros Hi Hk Hvalue Hrange.
  pose proof (div_pow10_bracket v i Hi) as Hb. rewrite <- Hvalue in Hb.
  pose proof (pow10_pos i Hi) as Hp.
  unfold digits_of.
  replace (i + k + 1 - 1) with (i + k) by lia.
  replace (i + k + 1) with (i + (k + 1)) by lia.
  rewrite !(Z.pow_add_r 10 i) by lia.
  destruct Hrange as [Hlo Hhi]. split.
  - apply Z.le_trans with (10 ^ i * value2); [| lia].
    apply Z.mul_le_mono_nonneg_l; lia.
  - apply Z.lt_le_trans with (10 ^ i * (value2 + 1)); [lia |].
    apply Z.mul_le_mono_nonneg_l; lia.
Qed.

Lemma pg_ulltoa_n_last_spec (value2 i : Z) (m : mem) :
  low_digits_written v a olength m0 i m ->
  value2 = v / 10 ^ i ->
  1 <= value2 < 100 ->
  digits_of v olength ->
  low_digits_written v a olength m0 olength
    (pg_ulltoa_n_last a olength value2 i m).
Proof.
  intros Hldw Hvalue Hrange Hol.
  pose proof (ldw_nonneg _ _ _ _ _ _ Hldw) as Hi.
  unfold pg_ulltoa_n_last.
  destruct (Z.geb_spec value2 10) as [Hge | Hlt]; cbv zeta.
  - assert (olength = i + 0 + 2) as Hlen.
    { apply (digits_of_unique v); [exact Hol |].
      replace (i + 0 + 2) with (i + 1 + 1) by lia.
      apply (digits_left value2); try lia; assumption. }
    rewrite Hlen at 2.
    eapply (ldw_group v a olength m0 i 0 value2 _ _ _ _ Hi ltac:(lia) Hvalue);
      [| reflexivity | lia | group_offset].
    rewrite Z.add_0_r. exact Hldw.
  - assert (olength = i + 1) as Hlen.
    { apply (digits_of_unique v); [exact Hol |].
      replace (i + 1) with (i + 0 + 1) by lia.
      apply (digits_left value2); try assumption; lia. }
    rewrite Hlen at 2.
    apply ldw_store; [exact Hldw | lia |].
    change (Z_of_char "0") with 48.
    rewrite u32_small by lia.
    unfold digit_char. change (Z_of_char "0") with 48.
    do 2 f_equal. unfold digit. rewrite <- Hvalue.
    symmetry. apply Z.mod_small. lia.
Qed.

End Phases.

(** ** pg_ulltoa_n *)

Lemma pg_ulltoa_n_zero (cfg : pg_config) (a : Z) (m : mem) :
  pg_ulltoa_n cfg 0 a m = Some (1, store m a "0"%char).
Proof. reflexivity. Qed.

Lemma pg_ulltoa_n_nonzero (cfg : pg_config) (v a : Z) (m : mem) :
  1 <= v < 2 ^ 64 ->
  exists d m',
    pg_ulltoa_n cfg v a m = Some (d, m') /\
    decimalLength64 cfg v = Some d /\
    digits_of v d /\ 1 <= d <= 20 /\
    low_digits_written v a d m d m'.
Proof.
  intros Hv.
  destruct (decimalLength64_digits cfg v Hv) as (d & Hd & Hdig & Hrange).
  unfold pg_ulltoa_n.
  destruct (Z.eqb_spec v 0) as [-> | _]; [lia |].
  cbv zeta. rewrite Hd.
  destruct (pg_ulltoa_n_loop_spec v a d m pg_ulltoa_n_fuel v 0 m)
    as (value & i & m1 & Hloop & Hldw1 & Hvalue1 & Hrange1).
  { apply ldw_start. }
  { change (10 ^ 0) with 1. rewrite Z.div_1_r. reflexivity. }
  { exact Hv. }
  { unfold pg_ulltoa_n_fuel. lia. }
  rewrite Hloop.
  rewrite u32_small by lia.
  destruct (pg_ulltoa_n_4digits a d value i m1) as [[value2 i2] m2] eqn:H4.
  destruct (pg_ulltoa_n_4digits_spec v a d m value i m1
              Hldw1 Hvalue1 Hrange1 _ _ _ H4) as (Hldw2 & Hvalue2 & Hrange2).
  destruct (pg_ulltoa_n_2digits a d value2 i2 m2) as [[value3 i3] m3] eqn:H2.
  destruct (pg_ulltoa_n_2digits_spec v a d m value2 i2 m2
              Hldw2 Hvalue2 Hrange2 _ _ _ H2) as (Hldw3 & Hvalue3 & Hrange3).
  eexists _, _. split; [reflexivity |].
  split; [reflexivity |]. split; [exact Hdig |]. split; [exact Hrange |].
  apply (pg_ulltoa_n_last_spec v a d m value3 i3 m3); assumption.
Qed.

(** The contract of [pg_ulltoa_n] on the whole of [uint64_t]. *)
Lemma pg_ulltoa_n_spec (cfg : pg_config) (v a : Z) (m : mem) :
  is_uint64 v ->
  exists d m',
    pg_ulltoa_n cfg v a m = Some (d, m') /\
    1 <= d <= 20 /\ v < 10 ^ d /\
    (v = 0 -> d = 1) /\
    (1 <= v -> digits_of v d /\ decimalLength64 cfg v = Some d) /\
    low_digits_written v a d m d m'.
Proof.
  intros Hv. unfold is_uint64 in Hv.
  destruct (Z.eq_dec v 0) as [-> | Hnz].
  - exists 1, (store m a "0"%char).
    split; [apply pg_ulltoa_n_zero |].
    split; [lia |]. split; [reflexivity |]. split; [reflexivity |].
    split; [lia |].
    change 1 with (0 + 1) at 2.
    apply ldw_store; [apply ldw_start | lia | reflexivity].
  - destruct (pg_ulltoa_n_nonzero cfg v a m ltac:(lia))
      as (d & m' & Hrun & Hlen & Hdig & Hrange & Hldw).
    exists d, m'. split; [exact Hrun |]. split; [exact Hrange |].
    split; [apply Hdig |]. split; [lia |]. split; [| exact Hldw].
    intros _. split; assumption.
Qed.

(** ** What the written bytes read as *)

Lemma decimal_text_succ (v : Z) (n : nat) :
  decimal_text v (Z.of_nat (S n))
  = digit_char (digit v (Z.of_nat n)) :: decimal_text v (Z.of_nat n).
Proof.
  unfold decimal_text. rewrite !Nat2Z.id.
  cbn [seq map]. f_equal.
  - f_equal. f_equal. lia.
  - rewrite <- seq_shift, map_map.
    apply map_ext. intros k. do 2 f_equal. lia.
Qed.


Lemma decimal_text_digits (v n : Z) :
  Forall (fun c => is_digit c = true) (decimal_text v n).
Proof.
  unfold decimal_text. apply Forall_map, Forall_forall.
  intros k _. apply is_digit_digit_char, digit_range.
Qed.

Lemma parse_decimal_text_acc (v : Z) (n : nat) (acc : Z) :
  fold_left (fun acc c => 10 * acc + (Z_of_char c - Z_of_char "0"))
            (decimal_text v (Z.of_nat n)) acc
  = acc * 10 ^ Z.of_nat n + v mod 10 ^ Z.of_nat n.
Proof.
  revert acc. induction n as [| n IH]; intros acc.
  - cbn [decimal_text Z.of_nat Z.to_nat seq map fold_left].
    change (10 ^ 0) with 1. rewrite Z.mod_1_r. lia.
  - rewrite decimal_text_succ. cbn [fold_left]. rewrite IH.
    rewrite Z_of_digit_char by apply digit_range.
    change (Z_of_char "0") with 48.
    replace (Z.of_nat (S n)) with (Z.of_nat n + 1) by lia.
    rewrite (Z.pow_add_r 10 (Z.of_nat n) 1) by lia.
    change (10 ^ 1) with 10.
    pose proof (pow10_pos (Z.of_nat n) ltac:(lia)) as Hp.
    rewrite (Z.rem_mul_r v (10 ^ Z.of_nat n) 10) by lia.
    unfold digit. lia.
Qed.

Lemma parse_decimal_text (v n : Z) :
  0 <= n -> 0 <= v < 10 ^ n -> parse_decimal (decimal_text v n) = v.
Proof.
  intros Hn Hv. unfold parse_decimal.
  rewrite <- (Z2Nat.id n) by exact Hn.
  rewrite parse_decimal_text_acc.
  rewrite Z2Nat.id by exact Hn.
  rewrite Z.mod_small by exact Hv. lia.
Qed.

(** The leading digit of a positive number is not 0. *)
Lemma leading_digit (v d : Z) :
  1 <= v -> digits_of v d -> 1 <= digit v (d - 1) <= 9.
Proof.
  intros Hv Hdig.
  pose proof (digits_of_positive v d Hv Hdig) as Hd.
  destruct Hdig as [Hlo Hhi].
  pose proof (pow10_pos (d - 1) ltac:(lia)) as Hp.
  replace d with (d - 1 + 1) in Hhi by lia.
  rewrite pow10_succ in Hhi by lia.
  unfold digit.
  assert (1 <= v / 10 ^ (d - 1)).
  { apply Z.div_le_lower_bound; lia. }
  assert (v / 10 ^ (d - 1) < 10).
  { apply Z.div_lt_upper_bound; lia. }
  rewrite Z.mod_small; lia.
Qed.

(** The invariant once all [d] digits are in place, from the buffer's start. *)
Lemma ldw_complete (v a d : Z) (m0 m : mem) :
  low_digits_written v a d m0 d m ->
  (forall k, 0 <= k < d ->
     contents m (a + k) = digit_char (digit v (d - 1 - k))) /\
  (forall p, ~ (a <= p < a + d) -> contents m p = contents m0 p) /\
  (exists new, writes m = new ++ writes m0 /\
     Z.of_nat (List.length new) = d /\
     (forall p, In p new <-> a <= p < a + d)).
Proof.
  intros [Hd Hdig Hframe (new & Hw & Hlen & Hin)].
  split; [| split].
  - intros k Hk.
    replace (a + k) with (a + d - 1 - (d - 1 - k)) by lia.
    apply Hdig. lia.
  - intros p Hp. apply Hframe. lia.
  - exists new. split; [exact Hw |]. split; [exact Hlen |].
    intros p. rewrite Hin. lia.
Qed.

(** ** pg_lltoa *)

(** The magnitude, by negation in [uint64_t]. *)
Lemma pg_lltoa_uvalue (v : Z) :
  is_int64 v ->
  (if v <? 0 then u64 (0 - u64 v) else u64 v) = Z.abs v.
Proof.
  unfold is_int64, u64. intros Hv.
  change (2 ^ 63) with 9223372036854775808 in Hv.
  change (2 ^ 64) with 18446744073709551616.
  destruct (Z.ltb_spec v 0) as [Hneg | Hpos].
  - rewrite <- (Z_mod_plus_full v 1 18446744073709551616).
    rewrite (Z.mod_small (v + _)) by lia.
    rewrite <- (Z_mod_plus_full (0 - _) 1 18446744073709551616).
    rewrite Z.mod_small by lia. lia.
  - rewrite Z.mod_small by lia. lia.
Qed.

Lemma abs_int64_uint64 (v : Z) : is_int64 v -> is_uint64 (Z.abs v).
Proof.
  unfold is_int64, is_uint64.
  change (2 ^ 63) with 9223372036854775808.
  change (2 ^ 64) with 18446744073709551616. lia.
Qed.

(** [pg_lltoa] is the sign store, [pg_ulltoa_n] on the magnitude one byte
    further when a sign was stored, and the store of the terminator. *)
Lemma pg_lltoa_unfold (cfg : pg_config) (v a : Z) (m : mem) :
  is_int64 v ->
  let sign := if v <? 0 then 1 else 0 in
  let m1 := if v <? 0 then store m a "-"%char else m in
  pg_lltoa cfg v a m =
  match pg_ulltoa_n cfg (Z.abs v) (a + sign) m1 with
  | None => None
  | Some (n, m2) => Some (sign + n, store m2 (a + (sign + n)) zero)
  end.
Proof.
  intros Hv sign m1. unfold pg_lltoa. cbv zeta.
  pose proof (pg_lltoa_uvalue v Hv) as Hu.
  subst sign m1.
  destruct (v <? 0); rewrite Hu.
  - rewrite Z.add_0_r. reflexivity.
  - rewrite Z.add_0_r. reflexivity.
Qed.

Lemma read_bytes_cons (m : mem) (a n : Z) :
  0 <= n ->
  read_bytes m a (1 + n) = contents m a :: read_bytes m (a + 1) n.
Proof.
  intros Hn. unfold read_bytes.
  replace (Z.to_nat (1 + n)) with (S (Z.to_nat n)) by lia.
  cbn [seq map]. f_equal.
  - f_equal. lia.
  - rewrite <- seq_shift, map_map.
    apply map_ext. intros k. f_equal. lia.
Qed.

Lemma sign_length_cases (v : Z) :
  (v < 0 /\ sign_length v = 1 /\ (v <? 0) = true) \/
  (0 <= v /\ sign_length v = 0 /\ (v <? 0) = false).
Proof.
  unfold sign_length. destruct (Z.ltb_spec v 0); [left | right]; auto.
Qed.

(** The contract of [pg_lltoa] on the whole of [int64_t]: [d] digits of the
    magnitude after the sign, the terminator after them. *)
Lemma pg_lltoa_spec (cfg : pg_config) (v a : Z) (m : mem) :
  is_int64 v ->
  let sign := sign_length v in
  exists d m',
    pg_lltoa cfg v a m = Some (sign + d, m') /\
    1 <= d <= 20 /\ Z.abs v < 10 ^ d /\
    (v = 0 -> d = 1) /\
    (v <> 0 -> digits_of (Z.abs v) d) /\
    (v < 0 -> contents m' a = "-"%char) /\
    (forall k, 0 <= k < d ->
       contents m' (a + sign + k) = digit_char (digit (Z.abs v) (d - 1 - k))) /\
    contents m' (a + (sign + d)) = zero /\
    (forall p, ~ (a <= p <= a + (sign + d)) -> contents m' p = contents m p) /\
    (exists new, writes m' = (a + (sign + d)) :: new ++ writes m /\
       Z.of_nat (List.length new) = sign + d /\
       (forall p, In p new <-> a <= p < a + (sign + d))).
Proof.
  intros Hv sign.
  rewrite (pg_lltoa_unfold cfg v a m Hv). cbv zeta.
  fold (sign_length v). fold sign.
  set (m1 := if v <? 0 then store m a "-"%char else m).
  destruct (pg_ulltoa_n_spec cfg (Z.abs v) (a + sign) m1
              (abs_int64_uint64 v Hv))
    as (d & m2 & Hrun & Hrange & Hlt & Hzero & Hpos & Hldw).
  destruct (ldw_complete _ _ _ _ _ Hldw)
    as (Hdig & Hframe & new & Hw & Hlen & Hin).
  rewrite Hrun.
  exists d, (store m2 (a + (sign + d)) zero).
  split; [reflexivity |]. split; [exact Hrange |]. split; [exact Hlt |].
  split; [intros ->; apply Hzero; reflexivity |].
  split; [intros Hnz; apply Hpos; lia |].
  assert (Hcase : (v < 0 /\ sign = 1 /\ m1 = store m a "-"%char) \/
                  (0 <= v /\ sign = 0 /\ m1 = m)).
  { unfold sign, sign_length, m1.
    destruct (Z.ltb_spec v 0); [left | right]; auto. }
  clearbody sign m1.
  split; [| split; [| split; [| split]]].
  - intros Hneg.
    destruct Hcase as [(_ & Hs & Hm1) | (Hge & _)]; [| lia].
    rewrite contents_store_neq by lia.
    rewrite Hframe by lia.
    rewrite Hm1. apply contents_store_eq.
  - intros k Hk. rewrite contents_store_neq by lia. apply Hdig, Hk.
  - apply contents_store_eq.
  - intros p Hp.
    rewrite contents_store_neq by lia.
    rewrite Hframe by lia.
    destruct Hcase as [(_ & Hs & Hm1) | (_ & Hs & Hm1)]; rewrite Hm1.
    + apply contents_store_neq. lia.
    + reflexivity.
  - rewrite writes_store, Hw.
    destruct Hcase as [(_ & Hs & Hm1) | (_ & Hs & Hm1)]; rewrite Hm1.
    + exists (new ++ [a]). rewrite writes_store, <- app_assoc.
      split; [reflexivity |]. split.
      * rewrite length_app. cbn [List.length]. lia.
      * intros p. rewrite in_app_iff, Hin. cbn [In]. lia.
    + exists new. split; [reflexivity |]. split; [lia |].
      intros p. rewrite Hin. lia.
Qed.

Lemma read_bytes_digits (u a d : Z) (m : mem) :
  (forall k, 0 <= k < d ->
     contents m (a + k) = digit_char (digit u (d - 1 - k))) ->
  read_bytes m a d = decimal_text u d.
Proof.
  intros Hdig. unfold read_bytes, decimal_text.
  apply map_ext_in. intros k Hk. apply in_seq in Hk.
  apply Hdig. lia.
Qed.

Lemma read_bytes_length (m : mem) (a n : Z) :
  0 <= n -> Z.of_nat (List.length (read_bytes m a n)) = n.
Proof.
  intros Hn. unfold read_bytes. rewrite length_map, length_seq. lia.
Qed.

Lemma digit_char_not_NUL (d : Z) : 0 <= d <= 9 -> digit_char d <> zero.
Proof.
  intros Hd Heq.
  pose proof (Z_of_digit_char d Hd) as H. rewrite Heq in H.
  change (Z_of_char zero) with 0 in H. lia.
Qed.

Lemma digit_char_not_minus (d : Z) : 0 <= d <= 9 -> digit_char d <> "-"%char.
Proof.
  intros Hd Heq.
  pose proof (Z_of_digit_char d Hd) as H. rewrite Heq in H.
  change (Z_of_char "-") with 45 in H. lia.
Qed.

Lemma digit_char_zero_iff (d : Z) :
  0 <= d <= 9 -> digit_char d = "0"%char <-> d = 0.
Proof.
  intros Hd. split.
  - intros Heq.
    pose proof (Z_of_digit_char d Hd) as H. rewrite Heq in H.
    change (Z_of_char "0") with 48 in H. lia.
  - intros ->. reflexivity.
Qed.

(** ** The digit count by division *)

Lemma digits_of_times10 (v d : Z) :
  10 <= v -> digits_of (v / 10) d -> digits_of v (d + 1).
Proof.
  intros Hv Hdig.
  pose proof (digits_of_positive (v / 10) d ltac:(div_lia) Hdig) as Hd.
  destruct Hdig as [Hlo Hhi]. unfold digits_of.
  replace (d + 1 - 1) with (d - 1 + 1) by lia.
  rewrite !pow10_succ by lia.
  div_lia.
Qed.

Lemma decimal_digits_fuel_spec (fuel : nat) (v : Z) :
  1 <= v < 10 ^ (Z.of_nat fuel + 1) ->
  digits_of v (decimal_digits_fuel fuel v).
Proof.
  revert v. induction fuel as [| fuel IH]; intros v Hv.
  - cbn [decimal_digits_fuel]. unfold digits_of.
    change (10 ^ (Z.of_nat 0 + 1)) with 10 in Hv.
    change (10 ^ (1 - 1)) with 1. change (10 ^ 1) with 10. lia.
  - cbn [decimal_digits_fuel].
    destruct (Z.ltb_spec v 10) as [Hlt | Hge].
    + unfold digits_of.
      change (10 ^ (1 - 1)) with 1. change (10 ^ 1) with 10. lia.
    + rewrite Z.add_comm. apply digits_of_times10; [exact Hge |].
      apply IH. split; [div_lia |].
      apply Z.div_lt_upper_bound; [lia |].
      rewrite <- pow10_succ by lia.
      replace (Z.of_nat fuel + 1 + 1) with (Z.of_nat (S fuel) + 1) by lia.
      lia.
Qed.

Lemma decimal_digits_spec (v : Z) :
  1 <= v < 2 ^ 64 -> digits_of v (decimal_digits v).
Proof.
  intros Hv. apply decimal_digits_fuel_spec.
  change (10 ^ (Z.of_nat 20 + 1)) with 1000000000000000000000. lia.
Qed.

(** The length [pg_ulltoa_n] is shown to return is the count by division. *)
Lemma decimal_digits_unique (v d : Z) :
  is_uint64 v ->
  (v = 0 -> d = 1) -> (1 <= v -> digits_of v d) ->
  d = decimal_digits v.
Proof.
  unfold is_uint64. intros Hv Hzero Hpos.
  destruct (Z.eq_dec v 0) as [-> | Hnz].
  - rewrite Hzero by reflexivity. reflexivity.
  - apply (digits_of_unique v); [apply Hpos; lia |].
    apply decimal_digits_spec. lia.
Qed.

(** The contract of [pg_ulltoa_n], with the length named. *)
Lemma pg_ulltoa_n_result (cfg : pg_config) (v a : Z) (m : mem) :
  is_uint64 v ->
  exists m',
    pg_ulltoa_n cfg v a m = Some (decimal_digits v, m') /\
    1 <= decimal_digits v <= 20 /\
    v < 10 ^ decimal_digits v /\
    (forall k, 0 <= k < decimal_digits v ->
       contents m' (a + k)
       = digit_char (digit v (decimal_digits v - 1 - k))) /\
    (forall p, ~ (a <= p < a + decimal_digits v) ->
       contents m' p = contents m p) /\
    (exists new, writes m' = new ++ writes m /\
       Z.of_nat (List.length new) = decimal_digits v /\
       (forall p, In p new <-> a <= p < a + decimal_digits v)).
Proof.
  intros Hv.
  destruct (pg_ulltoa_n_spec cfg v a m Hv)
    as (d & m' & Hrun & Hrange & Hlt & Hzero & Hpos & Hldw).
  assert (Hd : d = decimal_digits v).
  { apply decimal_digits_unique; [exact Hv | exact Hzero |].
    intros H1. apply Hpos, H1. }
  subst d.
  destruct (ldw_complete _ _ _ _ _ Hldw) as (Hdig & Hframe & Hwrites).
  exists m'. repeat (split; [assumption |]). exact Hwrites.
Qed.

(** The magnitude of an [int64_t] has at most 19 digits. *)
Lemma decimal_digits_abs_int64 (v : Z) :
  is_int64 v -> 1 <= decimal_digits (Z.abs v) <= 19.
Proof.
  intros Hv.
  pose proof (abs_int64_uint64 v Hv) as Hu. unfold is_uint64 in Hu.
  unfold is_int64 in Hv.
  destruct (Z.eq_dec v 0) as [-> | Hnz]; [vm_compute; split; discriminate |].
  pose proof (decimal_digits_spec (Z.abs v) ltac:(lia)) as Hdig.
  pose proof (digits_of_positive (Z.abs v) _ ltac:(lia) Hdig) as Hd.
  split; [exact Hd |].
  destruct Hdig as [Hlo _].
  destruct (Z.le_gt_cases (decimal_digits (Z.abs v)) 19) as [Hle | Hgt];
    [exact Hle |].
  exfalso.
  assert (10 ^ 19 <= 10 ^ (decimal_digits (Z.abs v) - 1))
    by (apply pow10_le; lia).
  change (10 ^ 19) with 10000000000000000000 in *.
  change (2 ^ 63) with 9223372036854775808 in *. lia.
Qed.

(** The contract of [pg_lltoa], with the length named. *)
Lemma pg_lltoa_result (cfg : pg_config) (v a : Z) (m : mem) :
  is_int64 v ->
  let d := decimal_digits (Z.abs v) in
  let len := sign_length v + d in
  exists m',
    pg_lltoa cfg v a m = Some (len, m') /\
    (v < 0 -> contents m' a = "-"%char) /\
    (forall k, 0 <= k < d ->
       contents m' (a + sign_length v + k)
       = digit_char (digit (Z.abs v) (d - 1 - k))) /\
    contents m' (a + len) = zero /\
    (forall p, ~ (a <= p <= a + len) -> contents m' p = contents m p) /\
    (exists new, writes m' = (a + len) :: new ++ writes m /\
       Z.of_nat (List.length new) = len /\
       (forall p, In p new <-> a <= p < a + len)).
Proof.
  intros Hv d len.
  destruct (pg_lltoa_spec cfg v a m Hv)
    as (d' & m' & Hrun & Hrange & Hlt & Hzero & Hpos & Hminus & Hdig & Hnul
        & Hframe & Hwrites).
  assert (Hd : d' = d).
  { apply decimal_digits_unique; [apply abs_int64_uint64, Hv | |].
    - intros H0. apply Hzero. lia.
    - intros H1. apply Hpos. lia. }
  subst d'. exists m'.
  repeat (split; [assumption |]). exact Hwrites.
Qed.

(** ** The documented results, by evaluation *)

Example pg_ulltoa_n_max :
  result_text (pg_ulltoa_n cfg_portable (2 ^ 64 - 1) 0 fresh_mem) 0
  = Some (20, "18446744073709551615"%string).
Proof. vm_compute. reflexivity. Qed.

Example pg_ulltoa_n_nine_digits :
  result_text (pg_ulltoa_n cfg_lp64 100000000 0 fresh_mem) 0
  = Some (9, "100000000"%string).
Proof. vm_compute. reflexivity. Qed.

Example pg_lltoa_0 :
  result_text (pg_lltoa cfg_lp64 0 0 fresh_mem) 0 = Some (1, "0"%string).
Proof. vm_compute. reflexivity. Qed.

Example pg_lltoa_minus_1 :
  result_text (pg_lltoa cfg_llp64 (-1) 0 fresh_mem) 0 = Some (2, "-1"%string).
Proof. vm_compute. reflexivity. Qed.

Example pg_lltoa_min :
  result_text (pg_lltoa cfg_portable (- 2 ^ 63) 0 fresh_mem) 0
  = Some (20, "-9223372036854775808"%string).
Proof. vm_compute. reflexivity. Qed.

Example pg_lltoa_max :
  result_text (pg_lltoa cfg_portable (2 ^ 63 - 1) 0 fresh_mem) 0
  = Some (19, "9223372036854775807"%string).
Proof. vm_compute. reflexivity. Qed.

(** The stores of [pg_lltoa(-12345, a)], newest first: the terminator, the
    digit of weight [10^4], the two pairs, the sign. *)
Example pg_lltoa_stores :
  option_map (fun r => writes (snd r)) (pg_lltoa cfg_portable (-12345) 0 fresh_mem)
  = Some [6; 1; 3; 2; 5; 4; 0].
Proof. vm_compute. reflexivity. Qed.

(** * The claims *)

(** C10. The two lookup tables hold what they are indexed for: for every
    [n] in [0, 99], [DIGIT_TABLE[2n]] is the character of the tens digit of
    [n] and [DIGIT_TABLE[2n+1]] that of its units digit; for every byte [b] in
    [1, 255], [pg_leftmost_one_pos[b]] is [floor(log2 b)], the position [p]
    with [2^p <= b < 2^(p+1)]. *)
Theorem tables_correct (n b : Z) :
  0 <= n <= 99 -> 1 <= b <= 255 ->
  (table_char DIGIT_TABLE (2 * n) = char_of_Z (Z_of_char "0" + n / 10) /\
   table_char DIGIT_TABLE (2 * n + 1) = char_of_Z (Z_of_char "0" + n mod 10)) /\
  (table_Z pg_leftmost_one_pos b = Z.log2 b /\
   2 ^ table_Z pg_leftmost_one_pos b <= b
     < 2 ^ (table_Z pg_leftmost_one_pos b + 1)) /\
  List.length DIGIT_TABLE = 200%nat /\
  List.length pg_leftmost_one_pos = 256%nat.
Proof.
  intros Hn Hb.
  split; [apply DIGIT_TABLE_pair; lia |].
  split; [| split; reflexivity].
  rewrite pg_leftmost_one_pos_log2 by exact Hb.
  split; [reflexivity |].
  pose proof (Z.log2_spec b ltac:(lia)). lia.
Qed.

Lemma tables_correct_witness :
  (0 <= 42 <= 99 /\ 1 <= 200 <= 255) /\
  (table_char DIGIT_TABLE (2 * 42) = char_of_Z (Z_of_char "0" + 42 / 10) /\
   table_char DIGIT_TABLE (2 * 42 + 1)
     = char_of_Z (Z_of_char "0" + 42 mod 10)) /\
  (table_Z pg_leftmost_one_pos 200 = Z.log2 200 /\
   2 ^ table_Z pg_leftmost_one_pos 200 <= 200
     < 2 ^ (table_Z pg_leftmost_one_pos 200 + 1)) /\
  List.length DIGIT_TABLE = 200%nat /\
  List.length pg_leftmost_one_pos = 256%nat.
Proof.
  split; [lia |]. apply (tables_correct 42 200); lia.
Defined.

(** C5. On every nonzero 64-bit word the two compiler-builtin paths
    ([63 - clz]) and the byte-at-a-time table path of
    [pg_leftmost_one_pos64] return the same position, whatever the build
    configuration; it is [floor(log2 word)], the [p] with
    [2^p <= word < 2^(p+1)], and lies in [0, 63]. *)
Theorem pg_leftmost_one_pos64_paths_agree (cfg : pg_config) (word : Z) :
  is_uint64 word -> word <> 0 ->
  pg_leftmost_one_pos64_clzl word = Some (Z.log2 word) /\
  pg_leftmost_one_pos64_clzll word = Some (Z.log2 word) /\
  pg_leftmost_one_pos64_table word = Some (Z.log2 word) /\
  pg_leftmost_one_pos64 cfg word = Some (Z.log2 word) /\
  2 ^ Z.log2 word <= word < 2 ^ (Z.log2 word + 1) /\
  0 <= Z.log2 word <= 63.
Proof.
  unfold is_uint64. intros Hw Hnz.
  assert (Hpos : 0 < word < 2 ^ 64) by lia.
  split; [apply pg_leftmost_one_pos64_clzl_log2, Hpos |].
  split; [apply pg_leftmost_one_pos64_clzll_log2, Hpos |].
  split; [apply pg_leftmost_one_pos64_table_log2, Hpos |].
  split; [apply pg_leftmost_one_pos64_log2, Hpos |].
  split; [| apply log2_range64, Hpos].
  pose proof (Z.log2_spec word ltac:(lia)). lia.
Qed.

Lemma pg_leftmost_one_pos64_paths_agree_witness :
  (is_uint64 1000000 /\ 1000000 <> 0) /\
  pg_leftmost_one_pos64_clzl 1000000 = Some (Z.log2 1000000) /\
  pg_leftmost_one_pos64_clzll 1000000 = Some (Z.log2 1000000) /\
  pg_leftmost_one_pos64_table 1000000 = Some (Z.log2 1000000) /\
  pg_leftmost_one_pos64 cfg_portable 1000000 = Some (Z.log2 1000000) /\
  2 ^ Z.log2 1000000 <= 1000000 < 2 ^ (Z.log2 1000000 + 1) /\
  0 <= Z.log2 1000000 <= 63.
Proof.
  split; [unfold is_uint64; lia |].
  apply (pg_leftmost_one_pos64_paths_agree cfg_portable 1000000);
    [unfold is_uint64; lia | lia].
Defined.

(** C3. For every unsigned 64-bit value [v >= 1], [decimalLength64 v]
    returns the number of decimal digits of [v], the unique [d] with
    [10^(d-1) <= v < 10^d], and the result lies in [1, 20]. *)
Theorem decimalLength64_exact (cfg : pg_config) (v : Z) :
  is_uint64 v -> 1 <= v ->
  exists d,
    decimalLength64 cfg v = Some d /\
    10 ^ (d - 1) <= v < 10 ^ d /\
    (forall d', 10 ^ (d' - 1) <= v < 10 ^ d' -> d' = d) /\
    1 <= d <= 20.
Proof.
  unfold is_uint64. intros Hv Hpos.
  destruct (decimalLength64_digits cfg v ltac:(lia)) as (d & Hd & Hdig & Hr).
  exists d. split; [exact Hd |]. split; [exact Hdig |].
  split; [| exact Hr].
  intros d' Hd'. apply (digits_of_unique v); assumption.
Qed.

Lemma decimalLength64_exact_witness :
  (is_uint64 (2 ^ 64 - 1) /\ 1 <= 2 ^ 64 - 1) /\
  exists d,
    decimalLength64 cfg_portable (2 ^ 64 - 1) = Some d /\
    10 ^ (d - 1) <= 2 ^ 64 - 1 < 10 ^ d /\
    (forall d', 10 ^ (d' - 1) <= 2 ^ 64 - 1 < 10 ^ d' -> d' = d) /\
    1 <= d <= 20.
Proof.
  split; [unfold is_uint64; lia |].
  apply (decimalLength64_exact cfg_portable (2 ^ 64 - 1));
    [unfold is_uint64; lia | lia].
Defined.

(** C4, as the code has it.  For every unsigned 64-bit value [v >= 1], with
    [e = floor(log10 v)] (the [e] with [10^e <= v < 10^(e+1)]), the estimate
    [t = (pg_leftmost_one_pos64(v) + 1) * 1233 / 4096] satisfies
    [e <= t <= e + 1]: it never underestimates [e] and exceeds it by at most
    one; the single correction [t + (v >= 10^t)] is then the exact digit
    count [e + 1]. *)
Theorem decimalLength64_t_within_one (cfg : pg_config) (v e : Z) :
  is_uint64 v -> 1 <= v ->
  10 ^ e <= v < 10 ^ (e + 1) ->
  exists t,
    decimalLength64_t cfg v = Some t /\
    e <= t <= e + 1 /\
    decimalLength64 cfg v = Some (t + (if v >=? 10 ^ t then 1 else 0)) /\
    t + (if v >=? 10 ^ t then 1 else 0) = e + 1.
Proof.
  unfold is_uint64. intros Hv Hpos He.
  destruct (decimalLength64_t_bounds cfg v ltac:(lia))
    as (t & Ht & Hrange & Hlo & Hhi).
  destruct (decimalLength64_digits cfg v ltac:(lia)) as (d & Hd & Hdig & _).
  assert (Hd' : decimalLength64 cfg v
                = Some (t + (if v >=? 10 ^ t then 1 else 0))).
  { unfold decimalLength64. rewrite Ht, PowersOfTen_pow by exact Hrange.
    reflexivity. }
  assert (He1 : digits_of v (e + 1)).
  { unfold digits_of. replace (e + 1 - 1) with e by lia. exact He. }
  assert (Hde : d = e + 1) by (apply (digits_of_unique v); assumption).
  assert (Hsum : t + (if v >=? 10 ^ t then 1 else 0) = e + 1).
  { rewrite Hd in Hd'. injection Hd' as Hd'. lia. }
  exists t. split; [exact Ht |].
  split; [| split; [exact Hd' | exact Hsum]].
  destruct (v >=? 10 ^ t); lia.
Qed.

Lemma decimalLength64_t_within_one_witness :
  (is_uint64 9 /\ 1 <= 9 /\ 10 ^ 0 <= 9 < 10 ^ (0 + 1)) /\
  exists t,
    decimalLength64_t cfg_lp64 9 = Some t /\
    0 <= t <= 0 + 1 /\
    decimalLength64 cfg_lp64 9 = Some (t + (if 9 >=? 10 ^ t then 1 else 0)) /\
    t + (if 9 >=? 10 ^ t then 1 else 0) = 0 + 1.
Proof.
  split; [unfold is_uint64; lia |].
  apply (decimalLength64_t_within_one cfg_lp64 9 0);
    [unfold is_uint64; lia | lia | lia].
Defined.

(** C4, as the claim states it, fails: at [v = 9] the most significant bit
    is bit 3, the estimate is [t = 4 * 1233 / 4096 = 1], and
    [floor(log10 9) = 0], so [t <= floor(log10 v)] does not hold: the
    estimate overestimates. *)
Lemma decimalLength64_t_overestimates :
  decimalLength64_t cfg_lp64 9 = Some 1 /\
  10 ^ 0 <= 9 < 10 ^ (0 + 1) /\
  ~ (forall cfg v e t,
       is_uint64 v -> 1 <= v ->
       10 ^ e <= v < 10 ^ (e + 1) ->
       decimalLength64_t cfg v = Some t ->
       t <= e <= t + 1).
Proof.
  split; [reflexivity |]. split; [lia |].
  intros H.
  specialize (H cfg_lp64 9 0 1).
  assert (1 <= 0 <= 1 + 1) as Habs.
  { apply H; [unfold is_uint64; lia | lia | lia | reflexivity]. }
  lia.
Qed.

(** C7.  [decimalLength64] is monotone: for all unsigned 64-bit values
    [v1 <= v2] it can be called with, those from 1 on (its one call follows
    the return of [pg_ulltoa_n] at 0), both calls return and
    [decimalLength64 v1 <= decimalLength64 v2]. *)
Theorem decimalLength64_monotone (cfg : pg_config) (v1 v2 : Z) :
  is_uint64 v1 -> is_uint64 v2 -> 1 <= v1 -> v1 <= v2 ->
  exists d1 d2,
    decimalLength64 cfg v1 = Some d1 /\
    decimalLength64 cfg v2 = Some d2 /\
    d1 <= d2.
Proof.
  unfold is_uint64. intros H1 H2 Hpos Hle.
  destruct (decimalLength64_digits cfg v1 ltac:(lia)) as (d1 & Hd1 & Hdig1 & _).
  destruct (decimalLength64_digits cfg v2 ltac:(lia)) as (d2 & Hd2 & Hdig2 & _).
  exists d1, d2. split; [exact Hd1 |]. split; [exact Hd2 |].
  apply (digits_of_le v1 v2); assumption.
Qed.

Lemma decimalLength64_monotone_witness :
  (is_uint64 99 /\ is_uint64 100 /\ 1 <= 99 /\ 99 <= 100) /\
  exists d1 d2,
    decimalLength64 cfg_llp64 99 = Some d1 /\
    decimalLength64 cfg_llp64 100 = Some d2 /\
    d1 <= d2.
Proof.
  split; [unfold is_uint64; lia |].
  apply (decimalLength64_monotone cfg_llp64 99 100);
    [unfold is_uint64; lia | unfold is_uint64; lia | lia | lia].
Defined.

(** C8. [pg_ulltoa_n(0, a)] stores the single byte ['0'] at [a[0]] and
    returns 1, and does so without the digit count: [decimalLength64] has no
    result at 0, and the call returns all the same, in every build
    configuration. *)
Theorem pg_ulltoa_n_zero_case (cfg : pg_config) (a : Z) (m : mem) :
  exists m',
    pg_ulltoa_n cfg 0 a m = Some (1, m') /\
    contents m' a = "0"%char /\
    (forall p, p <> a -> contents m' p = contents m p) /\
    writes m' = a :: writes m /\
    decimalLength64 cfg 0 = None.
Proof.
  exists (store m a "0"%char).
  split; [apply pg_ulltoa_n_zero |].
  split; [apply contents_store_eq |].
  split; [intros p Hp; apply contents_store_neq, Hp |].
  split; [reflexivity | apply decimalLength64_zero].
Qed.



(** C9. The output of [pg_ulltoa_n] is canonical: for every unsigned 64-bit
    value [v], every byte of [a[0 .. len)] is an ASCII digit ['0'..'9'], and
    the first byte is ['0'] only when [v] is 0: there is no leading zero. *)
Theorem pg_ulltoa_n_canonical (cfg : pg_config) (v a : Z) (m : mem) :
  is_uint64 v ->
  exists len m',
    pg_ulltoa_n cfg v a m = Some (len, m') /\
    1 <= len /\
    (forall k, 0 <= k < len -> is_digit (contents m' (a + k)) = true) /\
    (contents m' a = "0"%char <-> v = 0).
Proof.
  intros Hv.
  destruct (pg_ulltoa_n_spec cfg v a m Hv)
    as (d & m' & Hrun & Hrange & Hlt & Hzero & Hpos & Hldw).
  destruct (ldw_complete _ _ _ _ _ Hldw) as (Hdig & _ & _).
  unfold is_uint64 in Hv.
  exists d, m'. split; [exact Hrun |]. split; [lia |].
  split.
  - intros k Hk. rewrite Hdig by exact Hk.
    apply is_digit_digit_char, digit_range.
  - replace a with (a + 0) at 1 by lia.
    rewrite Hdig by lia.
    rewrite digit_char_zero_iff by apply digit_range.
    replace (d - 1 - 0) with (d - 1) by lia.
    split.
    + intros Hlead.
      destruct (Z.eq_dec v 0) as [Hv0 | Hnz]; [exact Hv0 |].
      destruct (Hpos ltac:(lia)) as [Hdigits _].
      pose proof (leading_digit v d ltac:(lia) Hdigits). lia.
    + intros ->. unfold digit. rewrite Z.div_0_l; [reflexivity |].
      pose proof (pow10_pos (d - 1) ltac:(lia)). lia.
Qed.

Lemma pg_ulltoa_n_canonical_witness :
  is_uint64 1000 /\
  exists len m',
    pg_ulltoa_n cfg_lp64 1000 0 fresh_mem = Some (len, m') /\
    1 <= len /\
    (forall k, 0 <= k < len -> is_digit (contents m' (0 + k)) = true) /\
    (contents m' 0 = "0"%char <-> 1000 = 0).
Proof.
  split; [unfold is_uint64; lia |].
  apply (pg_ulltoa_n_canonical cfg_lp64 1000 0 fresh_mem).
  unfold is_uint64; lia.
Defined.

(** C2. For every signed 64-bit value [v], [pg_lltoa(v, a)] stores a leading
    ['-'] exactly when [v < 0], then the decimal digits of [abs(v)], the
    magnitude being computed by negation in [uint64_t], then a zero byte at
    [a[len]], and returns the length [len] of sign and digits, the terminator
    not counted: [len] is the sign plus the digit count of [abs(v)], one
    digit at 0 and otherwise the [d] with [10^(d-1) <= abs(v) < 10^d].  At the minimum value the bytes are "-9223372036854775808"
    followed by NUL, and [len] is 20. *)
Theorem pg_lltoa_correct (cfg : pg_config) (v a : Z) (m : mem) :
  is_int64 v ->
  exists len m',
    pg_lltoa cfg v a m = Some (len, m') /\
    (contents m' a = "-"%char <-> v < 0) /\
    (if v <? 0 then u64 (0 - u64 v) else u64 v) = Z.abs v /\
    1 <= len - sign_length v /\
    len = sign_length v + decimal_digits (Z.abs v) /\
    (v = 0 -> len = 1) /\
    (v <> 0 ->
       10 ^ (len - sign_length v - 1) <= Z.abs v
         < 10 ^ (len - sign_length v)) /\
    read_bytes m' a len = signed_text v (len - sign_length v) /\
    Forall (fun c => is_digit c = true)
           (read_bytes m' (a + sign_length v) (len - sign_length v)) /\
    parse_decimal (read_bytes m' (a + sign_length v) (len - sign_length v))
    = Z.abs v /\
    (contents m' (a + sign_length v) = "0"%char <-> v = 0) /\
    contents m' (a + len) = zero /\
    Z.of_nat (List.length (read_bytes m' a len)) = len /\
    (v = - 2 ^ 63 ->
       len = 20 /\
       string_of_list_ascii (read_bytes m' a len)
       = "-9223372036854775808"%string /\
       contents m' (a + 20) = zero).
Proof.
  intros Hv.
  destruct (pg_lltoa_spec cfg v a m Hv)
    as (d & m' & Hrun & Hrange & Hlt & Hzero & Hpos & Hminus & Hdig & Hnul & _).
  pose proof (abs_int64_uint64 v Hv) as Habs. unfold is_uint64 in Habs.
  pose proof (read_bytes_digits (Z.abs v) (a + sign_length v) d m' Hdig)
    as Hdigits.
  assert (Htext : read_bytes m' a (sign_length v + d) = signed_text v d).
  { unfold signed_text.
    destruct (sign_length_cases v) as [(Hneg & Hs & Hb) | (Hge & Hs & Hb)];
      rewrite Hs in *; rewrite Hb.
    - rewrite read_bytes_cons by lia.
      rewrite Hminus by exact Hneg. rewrite Hdigits. reflexivity.
    - rewrite Z.add_0_r in Hdigits. rewrite Z.add_0_l, Hdigits.
      reflexivity. }
  exists (sign_length v + d), m'.
  replace (sign_length v + d - sign_length v) with d by lia.
  split; [exact Hrun |].
  split.
  { split; [| exact Hminus].
    intros Hc.
    destruct (sign_length_cases v) as [(Hneg & _) | (Hge & Hs & _)];
      [exact Hneg |].
    exfalso.
    specialize (Hdig 0 ltac:(lia)). rewrite Hs, !Z.add_0_r in Hdig.
    rewrite Hdig in Hc.
    exact (digit_char_not_minus _ (digit_range _ _) Hc). }
  split; [apply pg_lltoa_uvalue, Hv |].
  split; [lia |].
  split.
  { f_equal. apply decimal_digits_unique; [apply abs_int64_uint64, Hv | |].
    - intros H0. apply Hzero. lia.
    - intros H1. apply Hpos. lia. }
  split; [intros H0; rewrite H0, (Hzero H0); reflexivity |].
  split; [intros Hnz; exact (Hpos Hnz) |].
  split; [exact Htext |].
  rewrite Hdigits.
  split; [apply decimal_text_digits |].
  split; [apply parse_decimal_text; lia |].
  split.
  { specialize (Hdig 0 ltac:(lia)). rewrite Z.add_0_r in Hdig.
    rewrite Hdig, digit_char_zero_iff by apply digit_range.
    replace (d - 1 - 0) with (d - 1) by lia.
    split.
    - intros Hlead.
      destruct (Z.eq_dec v 0) as [Hv0 | Hnz]; [exact Hv0 |].
      pose proof (leading_digit (Z.abs v) d ltac:(lia) (Hpos Hnz)). lia.
    - intros ->. unfold digit. rewrite Z.div_0_l; [reflexivity |].
      pose proof (pow10_pos (d - 1) ltac:(lia)). lia. }
  split; [exact Hnul |].
  split.
  { rewrite read_bytes_length; [reflexivity |].
    destruct (sign_length_cases v) as [(_ & Hs & _) | (_ & Hs & _)]; lia. }
  intros Hmin.
  assert (Hd : d = 19).
  { apply (digits_of_unique (Z.abs v)); [apply Hpos; lia |].
    rewrite Hmin. unfold digits_of.
    change (Z.abs (- 2 ^ 63)) with 9223372036854775808. lia. }
  assert (Hs : sign_length v = 1) by (rewrite Hmin; reflexivity).
  rewrite Hs, Hd in *.
  split; [reflexivity |].
  split; [| exact Hnul].
  rewrite Htext, Hmin. vm_compute. reflexivity.
Qed.

Lemma pg_lltoa_correct_witness :
  is_int64 (- 2 ^ 63) /\
  exists len m',
    pg_lltoa cfg_portable (- 2 ^ 63) 0 fresh_mem = Some (len, m') /\
    (contents m' 0 = "-"%char <-> - 2 ^ 63 < 0) /\
    (if - 2 ^ 63 <? 0 then u64 (0 - u64 (- 2 ^ 63)) else u64 (- 2 ^ 63))
    = Z.abs (- 2 ^ 63) /\
    1 <= len - sign_length (- 2 ^ 63) /\
    len = sign_length (- 2 ^ 63) + decimal_digits (Z.abs (- 2 ^ 63)) /\
    (- 2 ^ 63 = 0 -> len = 1) /\
    (- 2 ^ 63 <> 0 ->
       10 ^ (len - sign_length (- 2 ^ 63) - 1) <= Z.abs (- 2 ^ 63)
         < 10 ^ (len - sign_length (- 2 ^ 63))) /\
    read_bytes m' 0 len = signed_text (- 2 ^ 63) (len - sign_length (- 2 ^ 63)) /\
    Forall (fun c => is_digit c = true)
           (read_bytes m' (0 + sign_length (- 2 ^ 63))
                       (len - sign_length (- 2 ^ 63))) /\
    parse_decimal (read_bytes m' (0 + sign_length (- 2 ^ 63))
                              (len - sign_length (- 2 ^ 63)))
    = Z.abs (- 2 ^ 63) /\
    (contents m' (0 + sign_length (- 2 ^ 63)) = "0"%char <-> - 2 ^ 63 = 0) /\
    contents m' (0 + len) = zero /\
    Z.of_nat (List.length (read_bytes m' 0 len)) = len /\
    (- 2 ^ 63 = - 2 ^ 63 ->
       len = 20 /\
       string_of_list_ascii (read_bytes m' 0 len)
       = "-9223372036854775808"%string /\
       contents m' (0 + 20) = zero).
Proof.
  split; [unfold is_int64; lia |].
  apply (pg_lltoa_correct cfg_portable (- 2 ^ 63) 0 fresh_mem).
  unfold is_int64; lia.
Defined.

(** C6. For every unsigned 64-bit value [u], [pg_ulltoa_n(u, a)] stores to
    no address outside [a[0 .. len)], [len] being its result: every byte at
    a negative index or at an index [>= len] is unchanged.  For every signed
    64-bit value [s], [pg_lltoa(s, a)] stores only to [a[0 .. len]]; the byte
    at [a[len]] is the terminator, stored once and the only zero byte of
    [a[0 .. len]]; every other byte of the memory is unchanged. *)
Theorem formatting_frame (cfg : pg_config) (u s a : Z) (m : mem) :
  is_uint64 u -> is_int64 s ->
  (exists len m',
     pg_ulltoa_n cfg u a m = Some (len, m') /\
     (forall p, ~ (a <= p < a + len) -> contents m' p = contents m p) /\
     (exists new,
        writes m' = new ++ writes m /\
        (forall p, In p new -> a <= p < a + len))) /\
  (exists len m',
     pg_lltoa cfg s a m = Some (len, m') /\
     (forall p, ~ (a <= p <= a + len) -> contents m' p = contents m p) /\
     (exists new,
        writes m' = (a + len) :: new ++ writes m /\
        (forall p, In p new -> a <= p < a + len)) /\
     contents m' (a + len) = zero /\
     (forall p, a <= p < a + len -> contents m' p <> zero)).
Proof.
  intros Hu Hs. split.
  - destruct (pg_ulltoa_n_spec cfg u a m Hu)
      as (d & m' & Hrun & _ & _ & _ & _ & Hldw).
    destruct (ldw_complete _ _ _ _ _ Hldw)
      as (_ & Hframe & new & Hw & _ & Hin).
    exists d, m'. split; [exact Hrun |]. split; [exact Hframe |].
    exists new. split; [exact Hw |].
    intros p Hp. apply Hin, Hp.
  - destruct (pg_lltoa_spec cfg s a m Hs)
      as (d & m' & Hrun & Hrange & _ & _ & _ & Hminus & Hdig & Hnul
          & Hframe & new & Hw & _ & Hin).
    exists (sign_length s + d), m'.
    split; [exact Hrun |]. split; [exact Hframe |].
    split; [exists new; split; [exact Hw | intros p Hp; apply Hin, Hp] |].
    split; [exact Hnul |].
    intros p Hp.
    destruct (sign_length_cases s) as [(Hneg & Hsl & _) | (_ & Hsl & _)];
      rewrite Hsl in *.
    + destruct (Z.eq_dec p a) as [-> | Hpa].
      * rewrite Hminus by exact Hneg. discriminate.
      * replace p with (a + 1 + (p - a - 1)) by lia.
        rewrite Hdig by lia.
        apply digit_char_not_NUL, digit_range.
    + replace p with (a + 0 + (p - a)) by lia.
      rewrite Hdig by lia.
      apply digit_char_not_NUL, digit_range.
Qed.

Lemma formatting_frame_witness :
  (is_uint64 (2 ^ 64 - 1) /\ is_int64 (- 2 ^ 63)) /\
  (exists len m',
     pg_ulltoa_n cfg_portable (2 ^ 64 - 1) 0 fresh_mem = Some (len, m') /\
     (forall p, ~ (0 <= p < 0 + len) -> contents m' p = contents fresh_mem p) /\
     (exists new,
        writes m' = new ++ writes fresh_mem /\
        (forall p, In p new -> 0 <= p < 0 + len))) /\
  (exists len m',
     pg_lltoa cfg_portable (- 2 ^ 63) 0 fresh_mem = Some (len, m') /\
     (forall p, ~ (0 <= p <= 0 + len) -> contents m' p = contents fresh_mem p) /\
     (exists new,
        writes m' = (0 + len) :: new ++ writes fresh_mem /\
        (forall p, In p new -> 0 <= p < 0 + len)) /\
     contents m' (0 + len) = zero /\
     (forall p, 0 <= p < 0 + len -> contents m' p <> zero)).
Proof.
  split; [unfold is_uint64, is_int64; lia |].
  apply (formatting_frame cfg_portable (2 ^ 64 - 1) (- 2 ^ 63) 0 fresh_mem);
    [unfold is_uint64; lia | unfold is_int64; lia].
Defined.

(** * Further properties of the code *)

(** ** The bit scan, in terms of bits *)

(** X1. On a nonzero 64-bit word, [pg_leftmost_one_pos64] returns the
    position of the most significant set bit, as its comment says: the bit
    at the returned position is set and no bit above it is. *)
Theorem pg_leftmost_one_pos64_msb (cfg : pg_config) (word : Z) :
  is_uint64 word -> word <> 0 ->
  exists pos,
    pg_leftmost_one_pos64 cfg word = Some pos /\
    Z.testbit word pos = true /\
    (forall q, pos < q -> Z.testbit word q = false).
Proof.
  unfold is_uint64. intros Hw Hnz.
  exists (Z.log2 word).
  split; [apply pg_leftmost_one_pos64_log2; lia |].
  split; [apply Z.bit_log2; lia |].
  intros q Hq. apply Z.bits_above_log2; lia.
Qed.

Lemma pg_leftmost_one_pos64_msb_witness :
  (is_uint64 (2 ^ 63 + 5) /\ 2 ^ 63 + 5 <> 0) /\
  exists pos,
    pg_leftmost_one_pos64 cfg_portable (2 ^ 63 + 5) = Some pos /\
    Z.testbit (2 ^ 63 + 5) pos = true /\
    (forall q, pos < q -> Z.testbit (2 ^ 63 + 5) q = false).
Proof.
  split; [unfold is_uint64; lia |].
  apply (pg_leftmost_one_pos64_msb cfg_portable (2 ^ 63 + 5));
    [unfold is_uint64; lia | lia].
Defined.

(** ** The digit count *)

(** X3. For every unsigned 64-bit value [v >= 1], the estimate [t] that
    [decimalLength64] indexes [PowersOfTen] with is one of the table's 20
    indices, and the entry read is [10^t]: the read is never out of
    bounds. *)
Theorem decimalLength64_index_in_bounds (cfg : pg_config) (v : Z) :
  is_uint64 v -> 1 <= v ->
  exists t,
    decimalLength64_t cfg v = Some t /\
    0 <= t /\ (Z.to_nat t < List.length PowersOfTen)%nat /\
    table_Z PowersOfTen t = 10 ^ t.
Proof.
  unfold is_uint64. intros Hv Hpos.
  destruct (decimalLength64_t_bounds cfg v ltac:(lia)) as (t & Ht & Hr & _).
  exists t. split; [exact Ht |]. split; [lia |].
  split; [| apply PowersOfTen_pow, Hr].
  change (List.length PowersOfTen) with 20%nat. lia.
Qed.

Lemma decimalLength64_index_in_bounds_witness :
  (is_uint64 (2 ^ 64 - 1) /\ 1 <= 2 ^ 64 - 1) /\
  exists t,
    decimalLength64_t cfg_lp64 (2 ^ 64 - 1) = Some t /\
    0 <= t /\ (Z.to_nat t < List.length PowersOfTen)%nat /\
    table_Z PowersOfTen t = 10 ^ t.
Proof.
  split; [unfold is_uint64; lia |].
  apply (decimalLength64_index_in_bounds cfg_lp64 (2 ^ 64 - 1));
    [unfold is_uint64; lia | lia].
Defined.

(** X4. [decimalLength64] steps exactly at the powers of ten: for
    [1 <= v] with [v + 1] an unsigned 64-bit value, the count of [v + 1] is
    that of [v] plus one when [v + 1] is [10^d], [d] the count of [v], and
    the count of [v] otherwise. *)
Theorem decimalLength64_step (cfg : pg_config) (v : Z) :
  1 <= v -> is_uint64 (v + 1) ->
  exists d,
    decimalLength64 cfg v = Some d /\
    decimalLength64 cfg (v + 1)
    = Some (if v + 1 =? 10 ^ d then d + 1 else d).
Proof.
  unfold is_uint64. intros Hpos Hv.
  destruct (decimalLength64_digits cfg v ltac:(lia)) as (d & Hd & Hdig & Hr).
  destruct (decimalLength64_digits cfg (v + 1) ltac:(lia))
    as (d' & Hd' & Hdig' & _).
  exists d. split; [exact Hd |]. rewrite Hd'. f_equal.
  apply (digits_of_unique (v + 1)); [exact Hdig' |].
  destruct Hdig as [Hlo Hhi]. unfold digits_of.
  destruct (Z.eqb_spec (v + 1) (10 ^ d)) as [Heq | Hne].
  - replace (d + 1 - 1) with d by lia.
    rewrite pow10_succ by lia. lia.
  - lia.
Qed.

Lemma decimalLength64_step_witness :
  (1 <= 999 /\ is_uint64 (999 + 1)) /\
  exists d,
    decimalLength64 cfg_portable 999 = Some d /\
    decimalLength64 cfg_portable (999 + 1)
    = Some (if 999 + 1 =? 10 ^ d then d + 1 else d).
Proof.
  split; [unfold is_uint64; lia |].
  apply (decimalLength64_step cfg_portable 999);
    [lia | unfold is_uint64; lia].
Defined.

(** ** The formatting functions *)

Lemma decimalLength64_any_cfg (cfg cfg' : pg_config) (v : Z) :
  is_uint64 v -> decimalLength64 cfg v = decimalLength64 cfg' v.
Proof.
  unfold is_uint64. intros Hv.
  unfold decimalLength64, decimalLength64_t.
  destruct (Z.eq_dec v 0) as [-> | Hnz].
  - rewrite !pg_leftmost_one_pos64_zero. reflexivity.
  - rewrite !pg_leftmost_one_pos64_log2 by lia. reflexivity.
Qed.

Lemma pg_ulltoa_n_any_cfg (cfg cfg' : pg_config) (v a : Z) (m : mem) :
  is_uint64 v -> pg_ulltoa_n cfg v a m = pg_ulltoa_n cfg' v a m.
Proof.
  intros Hv. unfold pg_ulltoa_n.
  rewrite (decimalLength64_any_cfg cfg cfg' v Hv). reflexivity.
Qed.


(** X5. For every unsigned 64-bit value [v], 0 included, the length
    [pg_ulltoa_n] returns is the digit count of [v] by repeated division by
    ten; for [v >= 1] it is what [decimalLength64] returns. *)
Theorem pg_ulltoa_n_length (cfg : pg_config) (v a : Z) (m : mem) :
  is_uint64 v ->
  exists m',
    pg_ulltoa_n cfg v a m = Some (decimal_digits v, m') /\
    (1 <= v -> decimalLength64 cfg v = Some (decimal_digits v)).
Proof.
  intros Hv.
  destruct (pg_ulltoa_n_result cfg v a m Hv) as (m' & Hrun & _).
  exists m'. split; [exact Hrun |].
  intros Hpos. unfold is_uint64 in Hv.
  destruct (decimalLength64_digits cfg v ltac:(lia)) as (d & Hd & Hdig & _).
  rewrite Hd. f_equal.
  apply (digits_of_unique v); [exact Hdig |].
  apply decimal_digits_spec. lia.
Qed.

Lemma pg_ulltoa_n_length_witness :
  is_uint64 10000000000 /\
  exists m',
    pg_ulltoa_n cfg_llp64 10000000000 0 fresh_mem
    = Some (decimal_digits 10000000000, m') /\
    (1 <= 10000000000 ->
     decimalLength64 cfg_llp64 10000000000
     = Some (decimal_digits 10000000000)).
Proof.
  split; [unfold is_uint64; lia |].
  apply (pg_ulltoa_n_length cfg_llp64 10000000000 0 fresh_mem).
  unfold is_uint64; lia.
Defined.



(** X7. The buffer sizes the comments ask of the caller are enough:
    [pg_ulltoa_n] returns a length in [1, 20] and stores only within the 20
    bytes from [a]; [pg_lltoa] returns a length in [1, 20] and stores only
    within the 21 bytes from [a], sign and terminator included. *)
Theorem formatting_buffer_bounds (cfg : pg_config) (u s a : Z) (m : mem) :
  is_uint64 u -> is_int64 s ->
  (exists len m',
     pg_ulltoa_n cfg u a m = Some (len, m') /\
     1 <= len <= 20 /\
     (forall p, ~ (a <= p < a + 20) -> contents m' p = contents m p) /\
     (exists new, writes m' = new ++ writes m /\
        (forall p, In p new -> a <= p < a + 20))) /\
  (exists len m',
     pg_lltoa cfg s a m = Some (len, m') /\
     1 <= len <= 20 /\
     (forall p, ~ (a <= p < a + 21) -> contents m' p = contents m p) /\
     (exists new, writes m' = new ++ writes m /\
        (forall p, In p new -> a <= p < a + 21))).
Proof.
  intros Hu Hs. split.
  - destruct (pg_ulltoa_n_result cfg u a m Hu)
      as (m' & Hrun & Hrange & _ & _ & Hframe & new & Hw & _ & Hin).
    exists (decimal_digits u), m'.
    split; [exact Hrun |]. split; [exact Hrange |].
    split; [intros p Hp; apply Hframe; lia |].
    exists new. split; [exact Hw |].
    intros p Hp. apply Hin in Hp. lia.
  - destruct (pg_lltoa_result cfg s a m Hs)
      as (m' & Hrun & _ & _ & _ & Hframe & new & Hw & _ & Hin).
    pose proof (decimal_digits_abs_int64 s Hs) as Hd.
    assert (Hlen : 1 <= sign_length s + decimal_digits (Z.abs s) <= 20).
    { destruct (sign_length_cases s) as [(_ & Hsl & _) | (_ & Hsl & _)]; lia. }
    eexists _, m'.
    split; [exact Hrun |]. split; [exact Hlen |].
    split; [intros p Hp; apply Hframe; lia |].
    eexists (_ :: new). split; [rewrite Hw; reflexivity |].
    intros p [<- | Hp]; [lia |]. apply Hin in Hp. lia.
Qed.

Lemma formatting_buffer_bounds_witness :
  (is_uint64 (2 ^ 64 - 1) /\ is_int64 (- 2 ^ 63)) /\
  (exists len m',
     pg_ulltoa_n cfg_lp64 (2 ^ 64 - 1) 0 fresh_mem = Some (len, m') /\
     1 <= len <= 20 /\
     (forall p, ~ (0 <= p < 0 + 20) -> contents m' p = contents fresh_mem p) /\
     (exists new, writes m' = new ++ writes fresh_mem /\
        (forall p, In p new -> 0 <= p < 0 + 20))) /\
  (exists len m',
     pg_lltoa cfg_lp64 (- 2 ^ 63) 0 fresh_mem = Some (len, m') /\
     1 <= len <= 20 /\
     (forall p, ~ (0 <= p < 0 + 21) -> contents m' p = contents fresh_mem p) /\
     (exists new, writes m' = new ++ writes fresh_mem /\
        (forall p, In p new -> 0 <= p < 0 + 21))).
Proof.
  split; [unfold is_uint64, is_int64; lia |].
  apply (formatting_buffer_bounds cfg_lp64 (2 ^ 64 - 1) (- 2 ^ 63) 0 fresh_mem);
    [unfold is_uint64; lia | unfold is_int64; lia].
Defined.

(** X8. The build configuration does not show in the result: for every
    unsigned 64-bit [u] and signed 64-bit [s], [pg_ulltoa_n] and [pg_lltoa]
    return the same length and leave the same memory whichever path of
    [pg_leftmost_one_pos64] was compiled in. *)
Theorem formatting_any_cfg (cfg cfg' : pg_config) (u s a : Z) (m : mem) :
  is_uint64 u -> is_int64 s ->
  pg_ulltoa_n cfg u a m = pg_ulltoa_n cfg' u a m /\
  pg_lltoa cfg s a m = pg_lltoa cfg' s a m.
Proof.
  intros Hu Hs. split; [apply pg_ulltoa_n_any_cfg, Hu |].
  rewrite !(pg_lltoa_unfold _ s a m Hs). cbv zeta.
  rewrite (pg_ulltoa_n_any_cfg cfg cfg') by (apply abs_int64_uint64, Hs).
  reflexivity.
Qed.

Lemma formatting_any_cfg_witness :
  (is_uint64 4294967296 /\ is_int64 (-4294967296)) /\
  pg_ulltoa_n cfg_lp64 4294967296 0 fresh_mem
  = pg_ulltoa_n cfg_portable 4294967296 0 fresh_mem /\
  pg_lltoa cfg_lp64 (-4294967296) 0 fresh_mem
  = pg_lltoa cfg_portable (-4294967296) 0 fresh_mem.
Proof.
  split; [unfold is_uint64, is_int64; lia |].
  apply (formatting_any_cfg cfg_lp64 cfg_portable
           4294967296 (-4294967296) 0 fresh_mem);
    [unfold is_uint64; lia | unfold is_int64; lia].
Defined.

(** X9. [pg_ulltoa_n] writes its buffer and never reads it, and its output
    does not depend on where the buffer is: for any two addresses and any
    two memories, the two calls on the same unsigned 64-bit value return the
    same length and leave the same bytes. *)
Theorem pg_ulltoa_n_ignores_buffer
    (cfg : pg_config) (v a1 a2 : Z) (m1 m2 : mem) :
  is_uint64 v ->
  exists len m1' m2',
    pg_ulltoa_n cfg v a1 m1 = Some (len, m1') /\
    pg_ulltoa_n cfg v a2 m2 = Some (len, m2') /\
    read_bytes m1' a1 len = read_bytes m2' a2 len.
Proof.
  intros Hv.
  destruct (pg_ulltoa_n_result cfg v a1 m1 Hv)
    as (m1' & Hrun1 & _ & _ & Hdig1 & _).
  destruct (pg_ulltoa_n_result cfg v a2 m2 Hv)
    as (m2' & Hrun2 & _ & _ & Hdig2 & _).
  exists (decimal_digits v), m1', m2'.
  split; [exact Hrun1 |]. split; [exact Hrun2 |].
  rewrite (read_bytes_digits v a1 _ m1' Hdig1).
  rewrite (read_bytes_digits v a2 _ m2' Hdig2). reflexivity.
Qed.

Lemma pg_ulltoa_n_ignores_buffer_witness :
  is_uint64 987654321987654321 /\
  exists len m1' m2',
    pg_ulltoa_n cfg_portable 987654321987654321 0 fresh_mem
    = Some (len, m1') /\
    pg_ulltoa_n cfg_portable 987654321987654321 100
      (store fresh_mem 105 "7"%char)
    = Some (len, m2') /\
    read_bytes m1' 0 len = read_bytes m2' 100 len.
Proof.
  split; [unfold is_uint64; lia |].
  apply (pg_ulltoa_n_ignores_buffer cfg_portable 987654321987654321 0 100
           fresh_mem (store fresh_mem 105 "7"%char)).
  unfold is_uint64; lia.
Defined.

(** X10. Formatting twice is formatting once: a second call of
    [pg_ulltoa_n], or of [pg_lltoa], with the same value on the memory the
    first call left returns the same length and leaves every byte of the
    memory as it was. *)
Theorem formatting_idempotent (cfg : pg_config) (u s a : Z) (m : mem) :
  is_uint64 u -> is_int64 s ->
  (exists len m' m'',
     pg_ulltoa_n cfg u a m = Some (len, m') /\
     pg_ulltoa_n cfg u a m' = Some (len, m'') /\
     (forall p, contents m'' p = contents m' p)) /\
  (exists len m' m'',
     pg_lltoa cfg s a m = Some (len, m') /\
     pg_lltoa cfg s a m' = Some (len, m'') /\
     (forall p, contents m'' p = contents m' p)).
Proof.
  intros Hu Hs. split.
  - destruct (pg_ulltoa_n_result cfg u a m Hu)
      as (m' & Hrun1 & _ & _ & Hdig1 & _).
    destruct (pg_ulltoa_n_result cfg u a m' Hu)
      as (m'' & Hrun2 & _ & _ & Hdig2 & Hframe2 & _).
    exists (decimal_digits u), m', m''.
    split; [exact Hrun1 |]. split; [exact Hrun2 |].
    intros p.
    destruct (Z_le_gt_dec a p) as [Hlo | Hlo];
      [destruct (Z_lt_ge_dec p (a + decimal_digits u)) as [Hhi | Hhi] |].
    + replace p with (a + (p - a)) by lia.
      rewrite Hdig1, Hdig2 by lia. reflexivity.
    + apply Hframe2. lia.
    + apply Hframe2. lia.
  - destruct (pg_lltoa_result cfg s a m Hs)
      as (m' & Hrun1 & Hminus1 & Hdig1 & Hnul1 & _).
    destruct (pg_lltoa_result cfg s a m' Hs)
      as (m'' & Hrun2 & Hminus2 & Hdig2 & Hnul2 & Hframe2 & _).
    eexists _, m', m''.
    split; [exact Hrun1 |]. split; [exact Hrun2 |].
    intros p.
    set (d := decimal_digits (Z.abs s)) in *.
    destruct (Z_le_gt_dec a p) as [Hlo | Hlo];
      [destruct (Z_le_gt_dec p (a + (sign_length s + d))) as [Hhi | Hhi] |].
    + destruct (Z.eq_dec p (a + (sign_length s + d))) as [-> | Hne];
        [rewrite Hnul1, Hnul2; reflexivity |].
      destruct (sign_length_cases s) as [(Hneg & Hsl & _) | (_ & Hsl & _)];
        rewrite Hsl in *.
      * destruct (Z.eq_dec p a) as [-> | Hpa];
          [rewrite Hminus1, Hminus2 by exact Hneg; reflexivity |].
        replace p with (a + 1 + (p - a - 1)) by lia.
        rewrite Hdig1, Hdig2 by lia. reflexivity.
      * replace p with (a + 0 + (p - a)) by lia.
        rewrite Hdig1, Hdig2 by lia. reflexivity.
    + apply Hframe2. lia.
    + apply Hframe2. lia.
Qed.

Lemma formatting_idempotent_witness :
  (is_uint64 18446744073709551615 /\ is_int64 (-9223372036854775808)) /\
  (exists len m' m'',
     pg_ulltoa_n cfg_llp64 18446744073709551615 0 fresh_mem = Some (len, m') /\
     pg_ulltoa_n cfg_llp64 18446744073709551615 0 m' = Some (len, m'') /\
     (forall p, contents m'' p = contents m' p)) /\
  (exists len m' m'',
     pg_lltoa cfg_llp64 (-9223372036854775808) 0 fresh_mem = Some (len, m') /\
     pg_lltoa cfg_llp64 (-9223372036854775808) 0 m' = Some (len, m'') /\
     (forall p, contents m'' p = contents m' p)).
Proof.
  split; [unfold is_uint64, is_int64; lia |].
  apply (formatting_idempotent cfg_llp64 18446744073709551615
           (-9223372036854775808) 0 fresh_mem);
    [unfold is_uint64; lia | unfold is_int64; lia].
Defined.

(** X11. The length of [pg_ulltoa_n] is monotone on all of the unsigned
    64-bit values, 0 included: [v1 <= v2] gives [len1 <= len2]. *)
Theorem pg_ulltoa_n_length_monotone
    (cfg : pg_config) (v1 v2 a : Z) (m : mem) :
  is_uint64 v1 -> is_uint64 v2 -> v1 <= v2 ->
  exists len1 m1 len2 m2,
    pg_ulltoa_n cfg v1 a m = Some (len1, m1) /\
    pg_ulltoa_n cfg v2 a m = Some (len2, m2) /\
    len1 <= len2.
Proof.
  intros H1 H2 Hle.
  destruct (pg_ulltoa_n_spec cfg v1 a m H1)
    as (d1 & m1 & Hrun1 & Hr1 & _ & Hzero1 & Hpos1 & _).
  destruct (pg_ulltoa_n_spec cfg v2 a m H2)
    as (d2 & m2 & Hrun2 & Hr2 & _ & _ & Hpos2 & _).
  exists d1, m1, d2, m2.
  split; [exact Hrun1 |]. split; [exact Hrun2 |].
  unfold is_uint64 in H1.
  destruct (Z.eq_dec v1 0) as [Hz | Hnz].
  - rewrite (Hzero1 Hz). lia.
  - apply (digits_of_le v1 v2); [exact Hle | apply Hpos1; lia |].
    apply Hpos2. lia.
Qed.

Lemma pg_ulltoa_n_length_monotone_witness :
  (is_uint64 0 /\ is_uint64 9 /\ 0 <= 9) /\
  exists len1 m1 len2 m2,
    pg_ulltoa_n cfg_lp64 0 0 fresh_mem = Some (len1, m1) /\
    pg_ulltoa_n cfg_lp64 9 0 fresh_mem = Some (len2, m2) /\
    len1 <= len2.
Proof.
  split; [unfold is_uint64; lia |].
  apply (pg_ulltoa_n_length_monotone cfg_lp64 0 9 0 fresh_mem);
    [unfold is_uint64; lia | unfold is_uint64; lia | lia].
Defined.



(** X13. [pg_lltoa] delegates the digits to [pg_ulltoa_n]: for every signed
    64-bit value [v], the minimum included, the bytes after the sign are the
    bytes [pg_ulltoa_n] leaves for the magnitude [abs(v)], in any buffer, and
    the returned length is the sign plus the length [pg_ulltoa_n] returns. *)
Theorem pg_lltoa_delegates
    (cfg : pg_config) (v a a0 : Z) (m m0 : mem) :
  is_int64 v ->
  exists len m' n m0',
    pg_lltoa cfg v a m = Some (len, m') /\
    pg_ulltoa_n cfg (Z.abs v) a0 m0 = Some (n, m0') /\
    len = sign_length v + n /\
    read_bytes m' (a + sign_length v) n = read_bytes m0' a0 n.
Proof.
  intros Hv.
  destruct (pg_lltoa_result cfg v a m Hv) as (m' & Hrun & _ & Hdig & _).
  destruct (pg_ulltoa_n_result cfg (Z.abs v) a0 m0 (abs_int64_uint64 v Hv))
    as (m0' & Hrun0 & _ & _ & Hdig0 & _).
  eexists _, m', _, m0'.
  split; [exact Hrun |]. split; [exact Hrun0 |]. split; [reflexivity |].
  rewrite (read_bytes_digits (Z.abs v) _ _ m' Hdig).
  rewrite (read_bytes_digits (Z.abs v) _ _ m0' Hdig0). reflexivity.
Qed.

Lemma pg_lltoa_delegates_witness :
  is_int64 (- 2 ^ 63) /\
  exists len m' n m0',
    pg_lltoa cfg_lp64 (- 2 ^ 63) 0 fresh_mem = Some (len, m') /\
    pg_ulltoa_n cfg_lp64 (Z.abs (- 2 ^ 63)) 50 fresh_mem = Some (n, m0') /\
    len = sign_length (- 2 ^ 63) + n /\
    read_bytes m' (0 + sign_length (- 2 ^ 63)) n = read_bytes m0' 50 n.
Proof.
  split; [unfold is_int64; lia |].
  apply (pg_lltoa_delegates cfg_lp64 (- 2 ^ 63) 0 50 fresh_mem fresh_mem).
  unfold is_int64; lia.
Defined.
